(** * Chess-Master: board, move generation, tactics and evaluation

    A shallow embedding of [src/chess_engine.py], [src/move_validator.py]
    and [src/position_evaluator.py].

    Modelling conventions.
    - Python [str] values are [string]s; a character is an [ascii], read as
      a code point below 256.
    - [Piece] objects are mutable and are compared by identity
      ([list.remove], [==] without [__eq__]).  They live in a store
      [heap : gmap loc Piece]; the board's [pieces] list and every local
      variable holding a piece hold a reference [loc].
    - Python exceptions are values of [Exn]; a computation that may raise
      returns [Res A].  A method that mutates the board returns the new
      board next to its result, also when it raises.
    - Python [int] is [Z].  The [float] expressions of the evaluator are
      computed exactly, over [Q]: their operands are integers and the
      constants 0.40, 0.30, 0.20, 0.10, 3.5 and 4.5, and the only use made
      of their values here is [round] and a comparison with 2 (see
      [weighted_sum] and [_assess_king_safety]). *)

From Stdlib Require Import ZArith QArith Qround Qabs Qminmax Lqa Ascii String DecimalString.
From stdpp Require Import base option list gmap strings.

Local Open Scope string_scope.
Local Open Scope list_scope.
Local Open Scope Z_scope.

(** ** Exceptions *)

Inductive Exn := IndexError | ValueError | AttributeError.

Inductive Res (A : Type) :=
  | OK (a : A)
  | Raise (e : Exn).
Arguments OK {A} a.
Arguments Raise {A} e.

#[global] Instance Res_ret : MRet Res := fun _ a => OK a.
#[global] Instance Res_bind : MBind Res := fun _ _ f m =>
  match m with OK a => f a | Raise e => Raise e end.

(** ** chess_engine.py: enums and pieces *)

Inductive Color := WHITE | BLACK.
Inductive PieceType := PAWN | KNIGHT | BISHOP | ROOK | QUEEN | KING.

#[global] Instance Color_eq_dec : EqDecision Color.
Proof. solve_decision. Defined.
#[global] Instance PieceType_eq_dec : EqDecision PieceType.
Proof. solve_decision. Defined.

(** [Color.opposite] *)
Definition opposite (c : Color) : Color :=
  match c with WHITE => BLACK | BLACK => WHITE end.

(** [Piece.PIECE_VALUES] *)
Definition PIECE_VALUES (t : PieceType) : Z :=
  match t with
  | PAWN => 1 | KNIGHT => 3 | BISHOP => 3 | ROOK => 5 | QUEEN => 9 | KING => 0
  end.

Record Piece := mkPiece {
  type : PieceType;
  color : Color;
  position : string;
  value : Z;
  move_count : Z
}.

(** [Piece.__init__] *)
Definition Piece_init (piece_type : PieceType) (c : Color) (pos : string) : Piece :=
  {| type := piece_type; color := c; position := pos;
     value := PIECE_VALUES piece_type; move_count := 0 |}.

Definition set_position (pos : string) (p : Piece) : Piece :=
  {| type := type p; color := color p; position := pos;
     value := value p; move_count := move_count p |}.

Definition set_move_count (n : Z) (p : Piece) : Piece :=
  {| type := type p; color := color p; position := position p;
     value := value p; move_count := n |}.

(** ** The object store *)

Definition loc := nat.

#[global] Instance Piece_inhabited : Inhabited Piece :=
  populate (Piece_init PAWN WHITE "").

(** ** chess_engine.py: ChessBoard *)

Record ChessBoard := mkBoard {
  heap : gmap loc Piece;
  pieces : list loc;
  move_history : list string;
  white_king_moved : bool;
  black_king_moved : bool;
  white_rook_a1_moved : bool;
  white_rook_h1_moved : bool;
  black_rook_a8_moved : bool;
  black_rook_h8_moved : bool
}.

(** The attributes of the object behind a reference.  A reference that was
    never allocated reads as the inhabitant of [Piece]; the code creates no
    such reference. *)
Definition obj (b : ChessBoard) (l : loc) : Piece := heap b !!! l.

Definition with_heap (h : gmap loc Piece) (b : ChessBoard) : ChessBoard :=
  mkBoard h (pieces b) (move_history b)
    (white_king_moved b) (black_king_moved b) (white_rook_a1_moved b)
    (white_rook_h1_moved b) (black_rook_a8_moved b) (black_rook_h8_moved b).

Definition with_pieces (ps : list loc) (b : ChessBoard) : ChessBoard :=
  mkBoard (heap b) ps (move_history b)
    (white_king_moved b) (black_king_moved b) (white_rook_a1_moved b)
    (white_rook_h1_moved b) (black_rook_a8_moved b) (black_rook_h8_moved b).

Definition with_move_history (hist : list string) (b : ChessBoard) : ChessBoard :=
  mkBoard (heap b) (pieces b) hist
    (white_king_moved b) (black_king_moved b) (white_rook_a1_moved b)
    (white_rook_h1_moved b) (black_rook_a8_moved b) (black_rook_h8_moved b).

(** [ChessBoard.FILES], [ChessBoard.RANKS] *)
Definition FILES : list ascii := ["a"; "b"; "c"; "d"; "e"; "f"; "g"; "h"]%char.
Definition RANKS : list ascii := ["1"; "2"; "3"; "4"; "5"; "6"; "7"; "8"]%char.

(** The first reference that is no key of the store. *)
Definition fresh_loc (h : gmap loc Piece) : loc :=
  map_fold (fun l _ n => Nat.max (S l) n) 0%nat h.

(** [self.pieces.append(Piece(piece_type, color, position))] *)
Definition append_new_piece (piece_type : PieceType) (c : Color) (pos : string)
    (b : ChessBoard) : ChessBoard :=
  let l := fresh_loc (heap b) in
  with_pieces (pieces b ++ [l])
    (with_heap (<[l := Piece_init piece_type c pos]> (heap b)) b).

(** f"{file}{rank}" for a file character and a rank digit *)
Definition label (file rank : ascii) : string := String file (String rank "").

(** [ChessBoard.setup_starting_position] *)
Definition setup_starting_position (b : ChessBoard) : ChessBoard :=
  let b := with_pieces [] b in
  let b := foldl (fun b file => append_new_piece PAWN WHITE (label file "2"%char) b) b FILES in
  let b := append_new_piece ROOK WHITE "a1" b in
  let b := append_new_piece KNIGHT WHITE "b1" b in
  let b := append_new_piece BISHOP WHITE "c1" b in
  let b := append_new_piece QUEEN WHITE "d1" b in
  let b := append_new_piece KING WHITE "e1" b in
  let b := append_new_piece BISHOP WHITE "f1" b in
  let b := append_new_piece KNIGHT WHITE "g1" b in
  let b := append_new_piece ROOK WHITE "h1" b in
  let b := foldl (fun b file => append_new_piece PAWN BLACK (label file "7"%char) b) b FILES in
  let b := append_new_piece ROOK BLACK "a8" b in
  let b := append_new_piece KNIGHT BLACK "b8" b in
  let b := append_new_piece BISHOP BLACK "c8" b in
  let b := append_new_piece QUEEN BLACK "d8" b in
  let b := append_new_piece KING BLACK "e8" b in
  let b := append_new_piece BISHOP BLACK "f8" b in
  let b := append_new_piece KNIGHT BLACK "g8" b in
  append_new_piece ROOK BLACK "h8" b.

(** [ChessBoard.__init__], in an empty store *)
Definition ChessBoard_init : ChessBoard :=
  setup_starting_position (mkBoard ∅ [] [] false false false false false false).

(** [ChessBoard.get_piece_at] *)
Definition get_piece_at (b : ChessBoard) (pos : string) : option loc :=
  List.find (fun l => String.eqb (position (obj b l)) pos) (pieces b).

(** [ChessBoard.get_pieces_by_color] *)
Definition get_pieces_by_color (b : ChessBoard) (c : Color) : list loc :=
  List.filter (fun l => bool_decide (color (obj b l) = c)) (pieces b).

(** [ChessBoard.get_pieces_by_type]; [Color] members are truthy, so
    [if color:] tests for [None] *)
Definition get_pieces_by_type (b : ChessBoard) (t : PieceType) (c : option Color)
    : list loc :=
  match c with
  | Some c =>
      List.filter (fun l => bool_decide (type (obj b l) = t)
                            && bool_decide (color (obj b l) = c)) (pieces b)
  | None => List.filter (fun l => bool_decide (type (obj b l) = t)) (pieces b)
  end.

(** [ChessBoard.is_valid_position] *)
Definition is_valid_position (pos : string) : bool :=
  match pos with
  | String file (String rank EmptyString) =>
      bool_decide (file ∈ FILES) && bool_decide (rank ∈ RANKS)
  | _ => false
  end.


(** ** move_validator.py: moves *)

Record Move := mkMove {
  from_pos : string;
  to_pos : string;
  piece : loc;
  captures : bool;
  is_check : bool;
  is_checkmate : bool;
  is_castling : bool;
  promotion : option PieceType
}.

(** [Move.__init__] *)
Definition Move_init (f t : string) (l : loc) (capt : bool) : Move :=
  mkMove f t l capt false false false None.

(** ** move_validator.py: coordinates *)

(** [ord(c)] *)
Definition ord (c : ascii) : Z := Z.of_nat (nat_of_ascii c).

(** [chr(n)], for a code point below 256 *)
Definition chr (n : Z) : ascii := ascii_of_nat (Z.to_nat n).

(** [str(n)] for an [int] *)
Definition str (n : Z) : string := NilZero.string_of_int (Z.to_int n).

(** [s[i]] *)
Definition index (s : string) (i : nat) : Res ascii :=
  match String.get i s with
  | Some c => OK c
  | None => Raise IndexError
  end.

(** [int(c)] for a one-character string: the decimal digits are the only
    characters below 256 that [int] accepts *)
Definition int_of_char (c : ascii) : Res Z :=
  if (ord "0"%char <=? ord c) && (ord c <=? ord "9"%char)
  then OK (ord c - ord "0"%char)
  else Raise ValueError.

(** [MoveValidator.pos_to_coords] *)
Definition pos_to_coords (pos : string) : Res (Z * Z) :=
  c0 ← index pos 0;
  let file := ord c0 - ord "a"%char in
  c1 ← index pos 1;
  d ← int_of_char c1;
  let rank := d - 1 in
  mret (file, rank).

(** [MoveValidator.coords_to_pos] *)
Definition coords_to_pos (file rank : Z) : option string :=
  if (0 <=? file) && (file <=? 7) && (0 <=? rank) && (rank <=? 7)
  then Some (String (chr (ord "a"%char + file)) (str (rank + 1)))
  else None.

(** ** move_validator.py: one generator per piece type

    Every generator reads the piece's square with [pos_to_coords] first,
    which is the only place where it can raise; the rest is the loop body,
    written here as a function of the coordinates.  The labels returned by
    [coords_to_pos] are never empty, so [if new_pos:] tests for [None]. *)

Section Generators.
Variable b : ChessBoard.

(** [self.board.get_piece_at(pos)] is truthy *)
Definition occupied (pos : string) : bool :=
  bool_decide (is_Some (get_piece_at b pos)).

(** the forward moves of [get_pawn_moves] *)
Definition pawn_forward (l : loc) (file rank : Z) : list Move :=
  let p := obj b l in
  let direction := if bool_decide (color p = WHITE) then 1 else -1 in
  let start_rank := if bool_decide (color p = WHITE) then 1 else 6 in
  let new_rank := rank + direction in
  if (0 <=? new_rank) && (new_rank <=? 7) then
    match coords_to_pos file new_rank with
    | Some new_pos =>
        if negb (occupied new_pos) then
          Move_init (position p) new_pos l false ::
          (if rank =? start_rank then
             let new_rank_2 := rank + 2 * direction in
             match coords_to_pos file new_rank_2 with
             | Some new_pos_2 =>
                 if negb (occupied new_pos_2)
                 then [Move_init (position p) new_pos_2 l false]
                 else []
             | None => []
             end
           else [])
        else []
    | None => []
    end
  else [].

(** the diagonal captures of [get_pawn_moves] *)
Definition pawn_captures (l : loc) (file rank : Z) : list Move :=
  let p := obj b l in
  let direction := if bool_decide (color p = WHITE) then 1 else -1 in
  flat_map (fun file_offset =>
    let capture_file := file + file_offset in
    let capture_rank := rank + direction in
    match coords_to_pos capture_file capture_rank with
    | Some capture_pos =>
        match get_piece_at b capture_pos with
        | Some target =>
            if bool_decide (color (obj b target) ≠ color p)
            then [Move_init (position p) capture_pos l true]
            else []
        | None => []
        end
    | None => []
    end) [-1; 1].

(** [MoveValidator.get_pawn_moves] *)
Definition get_pawn_moves (l : loc) : Res (list Move) :=
  '(file, rank) ← pos_to_coords (position (obj b l));
  mret (pawn_forward l file rank ++ pawn_captures l file rank).

(** one step of a knight or a king: quiet move onto an empty square,
    capture of an enemy piece, nothing onto a friendly piece *)
Definition step_moves (l : loc) (file rank : Z) (offsets : list (Z * Z))
    : list Move :=
  let p := obj b l in
  flat_map (fun '(file_offset, rank_offset) =>
    let new_file := file + file_offset in
    let new_rank := rank + rank_offset in
    match coords_to_pos new_file new_rank with
    | Some new_pos =>
        match get_piece_at b new_pos with
        | None => [Move_init (position p) new_pos l false]
        | Some target =>
            if bool_decide (color (obj b target) ≠ color p)
            then [Move_init (position p) new_pos l true]
            else []
        end
    | None => []
    end) offsets.

Definition knight_offsets : list (Z * Z) :=
  [(-2, -1); (-2, 1); (-1, -2); (-1, 2); (1, -2); (1, 2); (2, -1); (2, 1)].

(** [MoveValidator.get_knight_moves] *)
Definition get_knight_moves (l : loc) : Res (list Move) :=
  '(file, rank) ← pos_to_coords (position (obj b l));
  mret (step_moves l file rank knight_offsets).

(** the inner loop [for distance in range(1, 8)] of the bishop and the
    rook, with its three [break]s *)
Fixpoint ray (l : loc) (file rank file_dir rank_dir : Z) (distances : list Z)
    : list Move :=
  let p := obj b l in
  match distances with
  | [] => []
  | distance :: rest =>
      let new_file := file + file_dir * distance in
      let new_rank := rank + rank_dir * distance in
      match coords_to_pos new_file new_rank with
      | None => []
      | Some new_pos =>
          match get_piece_at b new_pos with
          | None =>
              Move_init (position p) new_pos l false ::
              ray l file rank file_dir rank_dir rest
          | Some target =>
              if bool_decide (color (obj b target) ≠ color p)
              then [Move_init (position p) new_pos l true]
              else []
          end
      end
  end.

(** [range(1, 8)] *)
Definition range_1_8 : list Z := [1; 2; 3; 4; 5; 6; 7].

Definition ray_moves (l : loc) (file rank : Z) (directions : list (Z * Z))
    : list Move :=
  flat_map (fun '(file_dir, rank_dir) =>
    ray l file rank file_dir rank_dir range_1_8) directions.

Definition bishop_directions : list (Z * Z) := [(-1, -1); (-1, 1); (1, -1); (1, 1)].
Definition rook_directions : list (Z * Z) := [(0, 1); (0, -1); (-1, 0); (1, 0)].

(** [MoveValidator.get_bishop_moves] *)
Definition get_bishop_moves (l : loc) : Res (list Move) :=
  '(file, rank) ← pos_to_coords (position (obj b l));
  mret (ray_moves l file rank bishop_directions).

(** [MoveValidator.get_rook_moves] *)
Definition get_rook_moves (l : loc) : Res (list Move) :=
  '(file, rank) ← pos_to_coords (position (obj b l));
  mret (ray_moves l file rank rook_directions).

(** [MoveValidator.get_queen_moves] *)
Definition get_queen_moves (l : loc) : Res (list Move) :=
  rook ← get_rook_moves l;
  bishop ← get_bishop_moves l;
  mret (rook ++ bishop).

Definition king_directions : list (Z * Z) :=
  [(-1, -1); (-1, 0); (-1, 1); (0, -1); (0, 1); (1, -1); (1, 0); (1, 1)].

(** [MoveValidator.get_king_moves] *)
Definition get_king_moves (l : loc) : Res (list Move) :=
  '(file, rank) ← pos_to_coords (position (obj b l));
  mret (step_moves l file rank king_directions).

(** The [if]/[elif] chain on [piece.type] that [get_legal_moves],
    [is_attacked], [detect_forks] and [detect_hanging_pieces] each spell
    out; [PieceType] has no seventh member, so their [else] is dead. *)
Definition piece_moves (l : loc) : Res (list Move) :=
  match type (obj b l) with
  | PAWN => get_pawn_moves l
  | KNIGHT => get_knight_moves l
  | BISHOP => get_bishop_moves l
  | ROOK => get_rook_moves l
  | QUEEN => get_queen_moves l
  | KING => get_king_moves l
  end.

(** the loop of [get_legal_moves] *)
Fixpoint extend_moves (ps : list loc) (all_moves : list Move) : Res (list Move) :=
  match ps with
  | [] => mret all_moves
  | l :: ps' =>
      moves ← piece_moves l;
      extend_moves ps' (all_moves ++ moves)
  end.

(** [MoveValidator.get_legal_moves] *)
Definition get_legal_moves (c : Color) : Res (list Move) :=
  extend_moves (get_pieces_by_color b c) [].

(** the loop of [is_attacked]; it returns at the first hit *)
Fixpoint is_attacked_loop (pos : string) (ps : list loc) : Res bool :=
  match ps with
  | [] => mret false
  | l :: ps' =>
      moves ← piece_moves l;
      if existsb (fun m => String.eqb (to_pos m) pos) moves
      then mret true
      else is_attacked_loop pos ps'
  end.

(** [MoveValidator.is_attacked] *)
Definition is_attacked (pos : string) (by_color : Color) : Res bool :=
  is_attacked_loop pos (get_pieces_by_color b by_color).

End Generators.

(** ** move_validator.py: tactics *)

Record Fork := mkFork {
  attacking_piece : loc;
  move : Move;
  targets : list loc;
  fork_value : Z
}.

Record Hanging := mkHanging {
  hanging_piece : loc;
  hanging_position : string;
  hanging_value : Z
}.

Section Tactics.
Variable b : ChessBoard.

(** [sum(p.value for p in attacked_pieces)] *)
Definition sum_values (ps : list loc) : Z :=
  foldl (fun acc o => acc + value (obj b o)) 0 ps.

(** the body of [for move in moves] in [detect_forks] *)
Definition fork_of_move (opponent_pieces : list loc) (l : loc) (m : Move)
    : list Fork :=
  let attacked_pieces :=
    List.filter (fun opponent => String.eqb (position (obj b opponent)) (to_pos m))
      opponent_pieces in
  let attacked_count := Z.of_nat (length attacked_pieces) in
  if 2 <=? attacked_count
  then [mkFork l m attacked_pieces (sum_values attacked_pieces)]
  else [].

(** the loop [for piece in pieces] of [detect_forks] *)
Fixpoint detect_forks_loop (opponent_pieces ps : list loc) (forks : list Fork)
    : Res (list Fork) :=
  match ps with
  | [] => mret forks
  | l :: ps' =>
      moves ← piece_moves b l;
      detect_forks_loop opponent_pieces ps'
        (forks ++ flat_map (fork_of_move opponent_pieces l) moves)
  end.

(** [MoveValidator.detect_forks] *)
Definition detect_forks (c : Color) : Res (list Fork) :=
  let ps := get_pieces_by_color b c in
  let opponent_pieces := get_pieces_by_color b (opposite c) in
  detect_forks_loop opponent_pieces ps [].

(** the loop [for defender in pieces] of [detect_hanging_pieces]; it
    stops at the first defender found *)
Fixpoint defended_loop (pos : string) (defenders : list loc) : Res bool :=
  match defenders with
  | [] => mret false
  | defender :: rest =>
      defender_moves ← piece_moves b defender;
      if existsb (fun m => String.eqb (to_pos m) pos) defender_moves
      then mret true
      else defended_loop pos rest
  end.

(** the loop [for piece in pieces] of [detect_hanging_pieces] *)
Fixpoint hanging_loop (c : Color) (all ps : list loc) (hanging : list Hanging)
    : Res (list Hanging) :=
  match ps with
  | [] => mret hanging
  | l :: ps' =>
      let p := obj b l in
      if bool_decide (type p = KING) || (value p =? 0)
      then hanging_loop c all ps' hanging
      else
        attacked ← is_attacked b (position p) (opposite c);
        if attacked : bool then
          defended ← defended_loop (position p) all;
          if defended : bool
          then hanging_loop c all ps' hanging
          else hanging_loop c all ps'
                 (hanging ++ [mkHanging l (position p) (value p)])
        else hanging_loop c all ps' hanging
  end.

(** [MoveValidator.detect_hanging_pieces] *)
Definition detect_hanging_pieces (c : Color) : Res (list Hanging) :=
  let ps := get_pieces_by_color b c in
  hanging_loop c ps ps [].

(** the two inner loops of [detect_weak_squares] for one square: the
    [break] leaves the loop over the moves only, so the moves of every
    pawn are generated *)
Fixpoint pawn_defends (pos : string) (pawns : list loc) (defended : bool)
    : Res bool :=
  match pawns with
  | [] => mret defended
  | pawn :: rest =>
      pawn_moves ← get_pawn_moves b pawn;
      pawn_defends pos rest
        (defended
         || existsb (fun m => captures m && String.eqb (to_pos m) pos) pawn_moves)
  end.

(** the loops over [FILES] and [RANKS] of [detect_weak_squares] *)
Fixpoint weak_loop (pawns : list loc) (squares weak_squares : list string)
    : Res (list string) :=
  match squares with
  | [] => mret weak_squares
  | pos :: rest =>
      defended ← pawn_defends pos pawns false;
      if defended : bool
      then weak_loop pawns rest weak_squares
      else weak_loop pawns rest (weak_squares ++ [pos])
  end.

(** [MoveValidator.detect_weak_squares] *)
Definition detect_weak_squares (c : Color) : Res (list string) :=
  let pawns := get_pieces_by_type b PAWN (Some c) in
  weak_loop pawns
    (flat_map (fun file => List.map (fun rank => label file rank) RANKS) FILES) [].

End Tactics.

(** ** chess_engine.py: moving a piece *)

(** The list that [xs.remove(x)] leaves: [xs] without the first occurrence
    of [x]. *)
Fixpoint remove_first (x : loc) (xs : list loc) : list loc :=
  match xs with
  | [] => []
  | y :: ys => if bool_decide (y = x) then ys else y :: remove_first x ys
  end.

(** f"{from_pos}-{to_pos}" *)
Definition token (f t : string) : string := (f ++ "-" ++ t)%string.

(** [ChessBoard.move_piece].  The target was found in [self.pieces], so
    [self.pieces.remove(target)] cannot raise. *)
Definition move_piece (b : ChessBoard) (f t : string) : ChessBoard * bool :=
  match get_piece_at b f with
  | None => (b, false)
  | Some l =>
      let b :=
        match get_piece_at b t with
        | Some target => with_pieces (remove_first target (pieces b)) b
        | None => b
        end in
      let b := with_heap (<[l := set_position t (obj b l)]> (heap b)) b in
      let b := with_heap
                 (<[l := set_move_count (move_count (obj b l) + 1) (obj b l)]> (heap b))
                 b in
      let b := with_move_history (move_history b ++ [token f t]) b in
      (b, true)
  end.

(** ** position_evaluator.py *)

(** [Piece.SYMBOLS] and [Piece.get_symbol]; the symbols are kept as opaque
    literals *)
Definition get_symbol (p : Piece) : string :=
  match type p, color p with
  | PAWN, WHITE => "♙" | PAWN, BLACK => "♟"
  | KNIGHT, WHITE => "♘" | KNIGHT, BLACK => "♞"
  | BISHOP, WHITE => "♗" | BISHOP, BLACK => "♝"
  | ROOK, WHITE => "♖" | ROOK, BLACK => "♜"
  | QUEEN, WHITE => "♕" | QUEEN, BLACK => "♛"
  | KING, WHITE => "♔" | KING, BLACK => "♚"
  end.

Inductive PositionPhase := OPENING | MIDDLEGAME | ENDGAME.

Definition PositionPhase_value (ph : PositionPhase) : string :=
  match ph with
  | OPENING => "opening" | MIDDLEGAME => "middlegame" | ENDGAME => "endgame"
  end.

Record Evaluation := mkEvaluation {
  material : Z;
  activity : Z;
  pawn_structure : Z;
  king_safety : Z;
  total : Z;
  phase : string
}.

Record MoveEvaluation := mkMoveEvaluation {
  move_token : string;
  evaluation : Evaluation;
  captured : option string
}.

Definition Qltb (x y : Q) : bool := negb (Qle_bool y x).

(** [round(x)] on a [float]: to the nearest integer, a tie to the even one *)
Definition py_round (x : Q) : Z :=
  let f := Qfloor x in
  match (x - inject_Z f ?= 1 # 2)%Q with
  | Lt => f
  | Gt => f + 1
  | Eq => if Z.even f then f else f + 1
  end.

(** [material * 0.40 + activity * 0.30 + pawns * 0.20 + king_safety * 0.10],
    with the decimal constants as written.  The four sub-scores are
    multiples of 100, 2, 20 and 10 (lemmas below), so the exact sum is a
    multiple of 1/5 and its rounding is the same for any value within 1/10
    of it. *)
Definition weighted_sum (m a p k : Z) : Q :=
  (inject_Z m * 0.40 + inject_Z a * 0.30 + inject_Z p * 0.20 + inject_Z k * 0.10)%Q.

Section Evaluator.
Variable b : ChessBoard.

(** [PositionEvaluator._evaluate_material] *)
Definition _evaluate_material : Z :=
  let '(white_material, black_material) :=
    foldl (fun '(w, bl) l =>
             if bool_decide (color (obj b l) = WHITE)
             then (w + value (obj b l) * 100, bl)
             else (w, bl + value (obj b l) * 100))
          (0, 0) (pieces b) in
  white_material - black_material.

(** [PositionEvaluator._evaluate_activity] *)
Definition _evaluate_activity : Res Z :=
  let white_activity := 0 in
  let black_activity := 0 in
  white ← get_legal_moves b WHITE;
  black ← get_legal_moves b BLACK;
  let white_moves := Z.of_nat (length white) in
  let black_moves := Z.of_nat (length black) in
  let mobility_bonus := (white_moves - black_moves) * 2 in
  mret (white_activity - black_activity + mobility_bonus).

(** the loop that fills [white_files] / [black_files] *)
Fixpoint count_files (pawns : list loc) (files : gmap ascii Z)
    : Res (gmap ascii Z) :=
  match pawns with
  | [] => mret files
  | pawn :: rest =>
      file ← index (position (obj b pawn)) 0;
      count_files rest (<[file := default 0 (files !! file) + 1]> files)
  end.

(** the loop over [files.items()], starting from a score of 0 *)
Definition doubled_penalty (files : gmap ascii Z) : Z :=
  map_fold (fun _ count score =>
              if 1 <? count then score - 20 * (count - 1) else score) 0 files.

(** [PositionEvaluator._evaluate_pawns] *)
Definition _evaluate_pawns : Res Z :=
  let white_pawns := get_pieces_by_type b PAWN (Some WHITE) in
  let black_pawns := get_pieces_by_type b PAWN (Some BLACK) in
  white_files ← count_files white_pawns ∅;
  let white_score := doubled_penalty white_files in
  black_files ← count_files black_pawns ∅;
  let black_score := doubled_penalty black_files in
  mret (white_score - black_score).

(** the shelter loop of [_assess_king_safety]; a pawn's coordinates are
    read with the two expressions of [pos_to_coords] *)
Fixpoint shelter (c : Color) (file rank : Z) (pawns : list loc) (shelter_bonus : Z)
    : Res Z :=
  match pawns with
  | [] => mret shelter_bonus
  | pawn :: rest =>
      '(pawn_file, pawn_rank) ← pos_to_coords (position (obj b pawn));
      if Z.abs (pawn_file - file) <=? 1 then
        if bool_decide (c = WHITE) && (rank - 1 <=? pawn_rank)
        then shelter c file rank rest (shelter_bonus + 10)
        else if bool_decide (c = BLACK) && (pawn_rank <=? rank + 1)
        then shelter c file rank rest (shelter_bonus + 10)
        else shelter c file rank rest shelter_bonus
      else shelter c file rank rest shelter_bonus
  end.

(** [PositionEvaluator._assess_king_safety]; the distances are halves of
    integers *)
Definition _assess_king_safety (king : option loc) (c : Color) : Res Z :=
  match king with
  | None => mret (-200)
  | Some king =>
      let safety := 0 in
      '(file, rank) ← pos_to_coords (position (obj b king));
      let distance_from_center :=
        (Qmin (Qabs (inject_Z file - 3.5)) (Qabs (inject_Z file - 4.5))
         + Qmin (Qabs (inject_Z rank - 3.5)) (Qabs (inject_Z rank - 4.5)))%Q in
      let safety := if Qltb distance_from_center 2 then safety - 30 else safety in
      let pawns := get_pieces_by_type b PAWN (Some c) in
      shelter_bonus ← shelter c file rank pawns 0;
      mret (safety + shelter_bonus)
  end.

(** the loop of [_evaluate_king_safety]: the last king of each colour in
    [pieces] is kept *)
Definition find_kings : option loc * option loc :=
  foldl (fun '(white_king, black_king) l =>
           if bool_decide (type (obj b l) = KING) then
             if bool_decide (color (obj b l) = WHITE)
             then (Some l, black_king)
             else (white_king, Some l)
           else (white_king, black_king))
        (None, None) (pieces b).

(** [PositionEvaluator._evaluate_king_safety] *)
Definition _evaluate_king_safety : Res Z :=
  let '(white_king, black_king) := find_kings in
  white_safety ← _assess_king_safety white_king WHITE;
  black_safety ← _assess_king_safety black_king BLACK;
  mret (white_safety - black_safety).

(** [PositionEvaluator._determine_phase] *)
Definition _determine_phase : PositionPhase :=
  let piece_count :=
    foldl (fun n l =>
             if bool_decide (type (obj b l) ∉ [KING; PAWN])
             then n + value (obj b l) else n)
          0 (pieces b) in
  if 9 <? piece_count then OPENING
  else if 3 <? piece_count then MIDDLEGAME
  else ENDGAME.

(** [PositionEvaluator.evaluate].  The entries ['assessment'] and
    ['detailed'] of the returned dict, which [_assess_position] and the
    dict display derive from the unrounded [total] without side effect,
    are not part of [Evaluation]. *)
Definition evaluate : Res Evaluation :=
  let material := _evaluate_material in
  activity ← _evaluate_activity;
  pawns ← _evaluate_pawns;
  king_safety ← _evaluate_king_safety;
  let total := weighted_sum material activity pawns king_safety in
  let phase := _determine_phase in
  mret {| material := material;
          activity := activity;
          pawn_structure := pawns;
          king_safety := king_safety;
          total := py_round total;
          phase := PositionPhase_value phase |}.

End Evaluator.

(** [PositionEvaluator.get_move_evaluation].  The board is returned as the
    call leaves it, also when an exception escapes. *)
Definition get_move_evaluation (b : ChessBoard) (f t : string)
    : ChessBoard * Res MoveEvaluation :=
  let original_piece := get_piece_at b f in
  let captured_piece := get_piece_at b t in
  let b := fst (move_piece b f t) in
  match evaluate b with
  | Raise e => (b, Raise e)
  | OK evaluation =>
      match get_piece_at b t with
      | None => (b, Raise ValueError)
      | Some x =>
          let b := with_pieces (remove_first x (pieces b)) b in
          match original_piece with
          | None => (b, Raise AttributeError)
          | Some original =>
              let b := with_heap (<[original := set_position f (obj b original)]> (heap b)) b in
              let b := with_pieces (pieces b ++ [original]) b in
              let b :=
                match captured_piece with
                | Some c => with_pieces (pieces b ++ [c]) b
                | None => b
                end in
              (b, OK {| move_token := token f t;
                        evaluation := evaluation;
                        captured := (fun c => get_symbol (obj b c)) <$> captured_piece |})
          end
      end
  end.

(** ** chess_engine.py: material, FEN and reset *)

Record MaterialBalance := mkMaterialBalance {
  mb_white : Z;
  mb_black : Z;
  advantage : Z;
  advantage_side : string;
  centipawns : Z
}.

(** [sum(p.value for p in self.pieces if p.color == c)] *)
Definition material_of (b : ChessBoard) (c : Color) : Z :=
  foldl (fun acc l => acc + value (obj b l)) 0 (get_pieces_by_color b c).

(** [ChessBoard.calculate_material_balance] *)
Definition calculate_material_balance (b : ChessBoard) : MaterialBalance :=
  let white_material := material_of b WHITE in
  let black_material := material_of b BLACK in
  let advantage := white_material - black_material in
  let advantage_side :=
    if 0 <? advantage then "white"
    else if advantage <? 0 then "black"
    else "equal" in
  mkMaterialBalance white_material black_material advantage advantage_side
    (advantage * 100).

(** [c.lower()] for one of the letters of [piece_char] *)
Definition lower (c : ascii) : ascii :=
  if (ord "A" <=? ord c) && (ord c <=? ord "Z") then chr (ord c + 32) else c.

(** the dict literal in [get_position_fen] *)
Definition piece_char (t : PieceType) : ascii :=
  match t with
  | PAWN => "P" | KNIGHT => "N" | BISHOP => "B"
  | ROOK => "R" | QUEEN => "Q" | KING => "K"
  end%char.

(** the loop [for file in self.FILES] of [get_position_fen] *)
Fixpoint fen_row_loop (b : ChessBoard) (rank : ascii) (files : list ascii)
    (fen_row : string) (empty_count : Z) : string * Z :=
  match files with
  | [] => (fen_row, empty_count)
  | file :: rest =>
      match get_piece_at b (label file rank) with
      | Some l =>
          let '(fen_row, empty_count) :=
            if 0 <? empty_count
            then ((fen_row ++ str empty_count)%string, 0)
            else (fen_row, empty_count) in
          let c := piece_char (type (obj b l)) in
          let c := if bool_decide (color (obj b l) = BLACK) then lower c else c in
          fen_row_loop b rank rest (fen_row ++ String c "")%string empty_count
      | None => fen_row_loop b rank rest fen_row (empty_count + 1)
      end
  end.

(** the body of [for rank in reversed(self.RANKS)] *)
Definition fen_row_of (b : ChessBoard) (rank : ascii) : string :=
  let '(fen_row, empty_count) := fen_row_loop b rank FILES "" 0 in
  if 0 <? empty_count then (fen_row ++ str empty_count)%string else fen_row.

(** [fen_rows] when the loop over the ranks ends *)
Definition fen_rows (b : ChessBoard) : list string :=
  List.map (fen_row_of b) (rev RANKS).

(** [ChessBoard.get_position_fen] *)
Definition get_position_fen (b : ChessBoard) : string :=
  String.concat "/" (fen_rows b).

(** [ChessBoard.reset_board]; the pieces of the old position stay in the
    store, the new ones are new objects *)
Definition reset_board (b : ChessBoard) : ChessBoard :=
  setup_starting_position
    (mkBoard (heap b) [] [] false false false false false false).

(** ** move_validator.py: Move methods *)

(** [PieceType.value] *)
Definition PieceType_value (t : PieceType) : string :=
  match t with
  | PAWN => "pawn" | KNIGHT => "knight" | BISHOP => "bishop"
  | ROOK => "rook" | QUEEN => "queen" | KING => "king"
  end.

(** [c.upper()] for an ASCII character *)
Definition upper (c : ascii) : ascii :=
  if (ord "a" <=? ord c) && (ord c <=? ord "z") then chr (ord c - 32) else c.

(** [Move.to_algebraic]; the piece is read through the store *)
Definition to_algebraic (b : ChessBoard) (m : Move) : Res string :=
  let notation := "" in
  notation ←
    (if bool_decide (type (obj b (piece m)) ≠ PAWN) then
       c ← index (PieceType_value (type (obj b (piece m)))) 0;
       mret (notation ++ String (upper c) "")%string
     else mret notation);
  let notation := if captures m then (notation ++ "x")%string else notation in
  let notation := (notation ++ to_pos m)%string in
  let notation :=
    if is_checkmate m then (notation ++ "#")%string
    else if is_check m then (notation ++ "+")%string
    else notation in
  mret notation.

(** [Move.__repr__] *)
Definition Move_repr (m : Move) : string :=
  ("Move(" ++ from_pos m ++ "-" ++ to_pos m ++ ")")%string.

(** [Move.__str__] *)
Definition Move_str (m : Move) : string :=
  (from_pos m ++ (if negb (captures m) then "-" else "x") ++ to_pos m)%string.

(** ** review_game.py: parse_move *)

(** [c.isspace()] for a code point below 256 *)
Definition isspace (c : ascii) : bool :=
  let n := ord c in
  ((9 <=? n) && (n <=? 13)) || ((28 <=? n) && (n <=? 32))
  || (n =? 133) || (n =? 160).

(** [s.lstrip()] *)
Fixpoint lstrip (s : string) : string :=
  match s with
  | String c rest => if isspace c then lstrip rest else s
  | EmptyString => EmptyString
  end.

(** [s[::-1]], used for the right end of [strip] *)
Fixpoint reverse (s : string) : string :=
  match s with
  | String c rest => (reverse rest ++ String c "")%string
  | EmptyString => EmptyString
  end.

(** [s.strip()] *)
Definition strip (s : string) : string :=
  reverse (lstrip (reverse (lstrip s))).

(** [s.replace(c, "")] for a one-character [c] *)
Fixpoint remove_char (c : ascii) (s : string) : string :=
  match s with
  | String d rest =>
      if Ascii.eqb d c then remove_char c rest else String d (remove_char c rest)
  | EmptyString => EmptyString
  end.

(** [parse_move] *)
Definition parse_move (move_str : string) : option (string * string) :=
  let move_str := remove_char "-" (remove_char " " (strip move_str)) in
  if (String.length move_str =? 4)%nat
  then Some (substring 0 2 move_str, substring 2 2 move_str)
  else None.

(** ** game-engine.py: GameManager

    The validator and the evaluator of a manager are views of its board
    and the opening book is constant data; the state of a manager is its
    board, the player to move, its own move history and what it has
    printed. *)

Module GameManager.

Record t := mk {
  board : ChessBoard;
  current_player : Color;
  move_history : list string;
  stdout : list string
}.

(** [GameManager.__init__] *)
Definition init : t := mk ChessBoard_init WHITE [] [].

(** [GameManager.reset_board] *)
Definition reset_board (g : t) : t :=
  mk (reset_board (board g)) WHITE [] (stdout g).

(** [GameManager.get_legal_moves] *)
Definition get_legal_moves (g : t) (c : option Color) : Res (list Move) :=
  let c := match c with None => current_player g | Some c => c end in
  get_legal_moves (board g) c.

(** [GameManager.get_moves_for_piece] *)
Definition get_moves_for_piece (g : t) (pos : string) : Res (list Move) :=
  match get_piece_at (board g) pos with
  | None => mret []
  | Some l => piece_moves (board g) l
  end.

(** [GameManager.make_move]; the manager is returned as the call leaves
    it, also when the move generation raises *)
Definition make_move (g : t) (f p : string) : t * Res bool :=
  match get_legal_moves g None with
  | Raise e => (g, Raise e)
  | OK legal_moves =>
      let move_valid :=
        existsb (fun m => String.eqb (from_pos m) f && String.eqb (to_pos m) p)
          legal_moves in
      if negb move_valid then
        (mk (board g) (current_player g) (move_history g)
            (stdout g ++ [("Invalid move: " ++ f ++ "-" ++ p)%string]),
         OK false)
      else
        let b := fst (move_piece (board g) f p) in
        (mk b
            (if bool_decide (current_player g = WHITE) then BLACK else WHITE)
            (move_history g ++ [token f p])
            (stdout g),
         OK true)
  end.

(** a sequence of [make_move] calls, as [review_game] and [_play_example]
    issue them without looking at the answers; it ends at the first call
    that raises *)
Fixpoint play (g : t) (moves : list (string * string)) : t * Res unit :=
  match moves with
  | [] => (g, OK tt)
  | (f, p) :: rest =>
      match make_move g f p with
      | (g', OK _) => play g' rest
      | (g', Raise e) => (g', Raise e)
      end
  end.

(** the move lists of [ChessRequestHandler._play_example] *)
Definition example_moves (name : string) : list (string * string) :=
  if String.eqb name "italian"
  then [("e2", "e4"); ("e7", "e5"); ("g1", "f3"); ("b8", "c6"); ("f1", "c4")]
  else if String.eqb name "french"
  then [("e2", "e4"); ("e6", "e6"); ("d2", "d4"); ("d7", "d5")]
  else [].

End GameManager.

(** * Specification vocabulary *)

(** ** Board invariants *)

(** Every piece on the board stands on a square a1..h8. *)
Definition placed (b : ChessBoard) : Prop :=
  Forall (fun l => is_valid_position (position (obj b l)) = true) (pieces b).

(** Every piece on the board has the value [Piece.__init__] gave it. *)
Definition valued (b : ChessBoard) : Prop :=
  Forall (fun l => value (obj b l) = PIECE_VALUES (type (obj b l))) (pieces b).

(** No two entries of [pieces] stand on the same square. *)
Definition one_piece_per_square (b : ChessBoard) : Prop :=
  NoDup (List.map (fun l => position (obj b l)) (pieces b)).

(** [placed], for a list of references. *)
Definition all_valid (b : ChessBoard) (ps : list loc) : Prop :=
  Forall (fun l => is_valid_position (position (obj b l)) = true) ps.

(** Coordinates of a square of the board. *)
Definition on_board (file rank : Z) : Prop :=
  0 <= file <= 7 /\ 0 <= rank <= 7.

(** ** Generated moves *)

(** What [piece_moves] returns once the square of the piece is read. *)
Definition moves_at (b : ChessBoard) (l : loc) (file rank : Z) : list Move :=
  match type (obj b l) with
  | PAWN => pawn_forward b l file rank ++ pawn_captures b l file rank
  | KNIGHT => step_moves b l file rank knight_offsets
  | BISHOP => ray_moves b l file rank bishop_directions
  | ROOK => ray_moves b l file rank rook_directions
  | QUEEN => ray_moves b l file rank rook_directions
             ++ ray_moves b l file rank bishop_directions
  | KING => step_moves b l file rank king_directions
  end.

(** The generated moves of the piece [d] include the square [pos]. *)
Definition reaches (b : ChessBoard) (d : loc) (pos : string) : Prop :=
  exists ms m, piece_moves b d = OK ms /\ m ∈ ms /\ to_pos m = pos.

(** A move of the piece [l] onto [pos] lands on an empty square or on a
    piece of the other colour. *)
Definition target_ok (b : ChessBoard) (l : loc) (pos : string) : Prop :=
  match get_piece_at b pos with
  | None => True
  | Some target => color (obj b target) <> color (obj b l)
  end.

(** The answer of a test that returned. *)
Definition unwrap (r : Res bool) : bool :=
  match r with OK v => v | Raise _ => false end.

(** The test that [hanging_loop] applies to one piece. *)
Definition hangs (b : ChessBoard) (c : Color) (all : list loc) (l : loc) : bool :=
  negb (bool_decide (type (obj b l) = KING) || (value (obj b l) =? 0))
  && unwrap (is_attacked b (position (obj b l)) (opposite c))
  && negb (unwrap (defended_loop b (position (obj b l)) all)).

(** ** Round trips *)

(** The board [b'] has the pieces of [b], each with the type, colour,
    square and value it has in [b]; the move counts agree too, except that
    of [mover], which is one higher in [b']. *)
Definition same_but_move_count (b b' : ChessBoard) (mover : loc) : Prop :=
  pieces b' ≡ₚ pieces b /\
  Forall (fun l =>
            type (obj b' l) = type (obj b l) /\
            color (obj b' l) = color (obj b l) /\
            position (obj b' l) = position (obj b l) /\
            value (obj b' l) = value (obj b l) /\
            move_count (obj b' l) =
              move_count (obj b l) + (if bool_decide (l = mover) then 1 else 0))
         (pieces b).

#[global] Instance same_but_move_count_dec b b' mover :
  Decision (same_but_move_count b b' mover).
Proof. unfold same_but_move_count. apply _. Defined.

(** The call returns normally. *)
Definition returns {A} (r : Res A) : Prop :=
  match r with OK _ => True | Raise _ => False end.

#[global] Instance returns_dec {A} (r : Res A) : Decision (returns r).
Proof. destruct r; simpl; apply _. Defined.

(** [get_move_evaluation] on the squares of the move [m], whose piece
    stands on its source square, returns and restores the board up to the
    move count of that piece. *)
Definition round_trip (b : ChessBoard) (m : Move) : Prop :=
  get_piece_at b (from_pos m) = Some (piece m) /\
  returns (snd (get_move_evaluation b (from_pos m) (to_pos m))) /\
  same_but_move_count b
    (fst (get_move_evaluation b (from_pos m) (to_pos m))) (piece m).

#[global] Instance round_trip_dec b m : Decision (round_trip b m).
Proof. unfold round_trip. apply _. Defined.

(** ** Positions used as instances *)

(** The reference of the knight that starts on b1. *)
Definition b1_knight : loc := 9%nat.

(** The position after 1. e4 d5. *)
Definition after_e4_d5 : ChessBoard :=
  fst (move_piece (fst (move_piece ChessBoard_init "e2" "e4")) "d7" "d5").


(** ** Moves, as a caller sees them *)

(** The generated moves of a piece, none when the generator raises. *)
Definition moves_of (b : ChessBoard) (l : loc) : list Move :=
  match piece_moves b l with OK ms => ms | Raise _ => [] end.

(** A move of the piece [l] as the generators build it: it starts on the
    square of [l], ends on a square of the board that is empty or holds a
    piece of the other colour, is flagged as a capture exactly in the
    second case, and carries the default flags. *)
Definition well_formed_move (b : ChessBoard) (l : loc) (m : Move) : Prop :=
  from_pos m = position (obj b l) /\
  piece m = l /\
  is_valid_position (to_pos m) = true /\
  (captures m = true <-> is_Some (get_piece_at b (to_pos m))) /\
  target_ok b l (to_pos m) /\
  is_check m = false /\ is_checkmate m = false /\
  is_castling m = false /\ promotion m = None.

(** The squares of the board that a ray passes before it leaves it. *)
Fixpoint reach (file rank file_dir rank_dir : Z) (distances : list Z) : nat :=
  match distances with
  | [] => 0
  | distance :: rest =>
      match coords_to_pos (file + file_dir * distance) (rank + rank_dir * distance) with
      | Some _ => S (reach file rank file_dir rank_dir rest)
      | None => 0
      end
  end%nat.

(** The same, summed over the directions of a piece. *)
Definition reach_all (file rank : Z) (directions : list (Z * Z)) : nat :=
  foldr (fun '(file_dir, rank_dir) n =>
           (reach file rank file_dir rank_dir range_1_8 + n)%nat) 0%nat directions.

(** The most moves a piece of a type can have. *)
Definition max_moves (t : PieceType) : nat :=
  match t with
  | PAWN => 4 | KNIGHT => 8 | BISHOP => 13 | ROOK => 14 | QUEEN => 27 | KING => 8
  end%nat.

(** The piece [p] after [move_piece] has moved it to [pos]. *)
Definition moved (pos : string) (p : Piece) : Piece :=
  set_move_count (move_count p + 1) (set_position pos p).

(** ** Positions, as a caller sees them *)

(** The pieces of the board with their attributes, in board order. *)
Definition layout (b : ChessBoard) : list Piece :=
  List.map (obj b) (pieces b).

(** Every reference in [pieces] is a key of the store. *)
Definition allocated (b : ChessBoard) : Prop :=
  Forall (fun l => is_Some (heap b !! l)) (pieces b).

(** The number of squares that a row of a FEN string describes: a digit
    stands for as many squares as it says, any other character for one. *)
Fixpoint row_width (row : string) : Z :=
  match row with
  | EmptyString => 0
  | String c rest =>
      (if (ord "0" <=? ord c) && (ord c <=? ord "9") then ord c - ord "0" else 1)
      + row_width rest
  end.

(** The FEN of the starting position, as the docstring of
    [get_position_fen] gives it. *)
Definition starting_fen : string :=
  "rnbqkbnr/pppppppp/8/8/8/8/PPPPPPPP/RNBQKBNR".

(** ** Pawn files *)

(** The file letter of the square of a piece. *)
Definition file_of (p : Piece) : ascii :=
  match position p with
  | String c _ => c
  | EmptyString => "000"%char
  end.

(** The pawns of a colour beyond the first on their file: the number of
    pawns less the number of files that hold one. *)
Definition doubled_pawns (b : ChessBoard) (c : Color) : Z :=
  let pawns := get_pieces_by_type b PAWN (Some c) in
  Z.of_nat (length pawns)
  - Z.of_nat (size (list_to_set (List.map (fun l => file_of (obj b l)) pawns)
                    : gset ascii)).

(** The same for a table of counts per file. *)
Definition excess (files : gmap ascii Z) : Z :=
  map_fold (fun _ count n => n + (count - 1)) 0 files.

(** ** Squares *)

(** The 64 squares in the order in which [detect_weak_squares] visits
    them. *)
Definition all_squares : list string :=
  flat_map (fun file => List.map (fun rank => label file rank) RANKS) FILES.

(** Some pawn of colour [c] has a generated capture onto [pos]. *)
Definition pawn_covers (b : ChessBoard) (c : Color) (pos : string) : Prop :=
  exists pawn ms m,
    pawn ∈ get_pieces_by_type b PAWN (Some c) /\
    get_pawn_moves b pawn = OK ms /\
    m ∈ ms /\ captures m = true /\ to_pos m = pos.

(** ** Games *)

(** The board of the manager has its pieces on squares of the board, one
    per square, each with the value of its type. *)
Definition well_formed_game (g : GameManager.t) : Prop :=
  placed (GameManager.board g) /\
  one_piece_per_square (GameManager.board g) /\
  valued (GameManager.board g).

(** The manager and its board have recorded the same moves, and White is
    to move exactly after an even number of them. *)
Definition history_in_step (g : GameManager.t) : Prop :=
  GameManager.move_history g = move_history (GameManager.board g) /\
  GameManager.current_player g =
    if Nat.even (length (GameManager.move_history g)) then WHITE else BLACK.

(** What [make_move] answers and leaves when it accepts the move. *)
Definition accepted (g g' : GameManager.t) (f p : string) : Prop :=
  (exists l,
     get_piece_at (GameManager.board g) f = Some l /\
     color (obj (GameManager.board g) l) = GameManager.current_player g /\
     target_ok (GameManager.board g) l p) /\
  is_valid_position f = true /\ is_valid_position p = true /\ f <> p /\
  GameManager.board g' = fst (move_piece (GameManager.board g) f p) /\
  GameManager.current_player g' = opposite (GameManager.current_player g) /\
  GameManager.move_history g' = GameManager.move_history g ++ [token f p] /\
  GameManager.stdout g' = GameManager.stdout g.

(** What [make_move] leaves when it refuses the move. *)
Definition refused (g g' : GameManager.t) (f p : string) : Prop :=
  GameManager.board g' = GameManager.board g /\
  GameManager.current_player g' = GameManager.current_player g /\
  GameManager.move_history g' = GameManager.move_history g /\
  GameManager.stdout g' =
    GameManager.stdout g ++ [("Invalid move: " ++ f ++ "-" ++ p)%string].

(** * Properties *)

(** ** Lists and references *)

Lemma find_some_elem (P : loc -> bool) (ps : list loc) (l : loc) :
  List.find P ps = Some l -> l ∈ ps /\ P l = true.
Proof.
  intros H. apply List.find_some in H as [Hin HP].
  split; [by apply list_elem_of_In | done].
Qed.

Lemma get_piece_at_Some b pos l :
  get_piece_at b pos = Some l -> l ∈ pieces b /\ position (obj b l) = pos.
Proof.
  unfold get_piece_at. intros H. apply find_some_elem in H as [Hin Heq].
  split; [done | by apply String.eqb_eq].
Qed.

Lemma remove_first_length x xs :
  x ∈ xs -> S (length (remove_first x xs)) = length xs.
Proof.
  induction xs as [|y ys IH]; intros Hin.
  - by apply elem_of_nil in Hin.
  - simpl. case_bool_decide as Hy; [done |].
    apply elem_of_cons in Hin as [-> | Hin]; [done |].
    simpl. by rewrite IH.
Qed.

Lemma remove_first_NoDup x xs : NoDup xs -> x ∉ remove_first x xs.
Proof.
  induction 1 as [|y ys Hy Hnd IH]; simpl.
  - apply not_elem_of_nil.
  - case_bool_decide as Heq; [by subst |].
    intros Hin. apply elem_of_cons in Hin as [-> | Hin]; [done | by apply IH].
Qed.

(** ** The starting position *)

(** C5. On the standard starting position White and Black each have exactly
    20 generated moves, and the knight on b1 generates exactly two moves,
    to a3 and to c3, in this order. *)
Theorem starting_position_moves :
  (exists ms, get_legal_moves ChessBoard_init WHITE = OK ms /\ length ms = 20%nat) /\
  (exists ms, get_legal_moves ChessBoard_init BLACK = OK ms /\ length ms = 20%nat) /\
  get_piece_at ChessBoard_init "b1" = Some b1_knight /\
  type (obj ChessBoard_init b1_knight) = KNIGHT /\
  get_knight_moves ChessBoard_init b1_knight =
    OK [Move_init "b1" "a3" b1_knight false; Move_init "b1" "c3" b1_knight false].
Proof.
  split; [|split].
  - eexists. split; [vm_compute; reflexivity | reflexivity].
  - eexists. split; [vm_compute; reflexivity | reflexivity].
  - repeat split; vm_compute; reflexivity.
Qed.

(** ** move_piece *)

(** C7. [move_piece] returns [False] exactly when no piece stands on the
    source square, and then the board (pieces, their attributes, history
    and flags) is the one it was called on. *)
Theorem move_piece_false_iff_empty b f t :
  (snd (move_piece b f t) = false <-> get_piece_at b f = None) /\
  (snd (move_piece b f t) = false -> fst (move_piece b f t) = b).
Proof.
  unfold move_piece. destruct (get_piece_at b f) as [l|]; simpl.
  - split; [split |]; discriminate.
  - done.
Qed.

(** C10. Moving the piece on [p] onto its own square succeeds, yet takes
    the piece off the board: it is its own capture target, so one entry
    of [pieces] goes, and when [pieces] holds it once it is gone
    altogether. *)
Theorem move_piece_onto_itself b p l :
  get_piece_at b p = Some l ->
  snd (move_piece b p p) = true /\
  pieces (fst (move_piece b p p)) = remove_first l (pieces b) /\
  S (length (pieces (fst (move_piece b p p)))) = length (pieces b) /\
  (NoDup (pieces b) -> l ∉ pieces (fst (move_piece b p p))).
Proof.
  intros H. unfold move_piece. rewrite H. simpl.
  destruct (get_piece_at_Some _ _ _ H) as [Hin _].
  repeat split.
  - by apply remove_first_length.
  - apply remove_first_NoDup.
Qed.

(** The e-pawn of the starting position, moved from e2 to e2. *)
Lemma move_piece_onto_itself_witness :
  snd (move_piece ChessBoard_init "e2" "e2") = true /\
  pieces (fst (move_piece ChessBoard_init "e2" "e2")) =
    remove_first 4%nat (pieces ChessBoard_init) /\
  S (length (pieces (fst (move_piece ChessBoard_init "e2" "e2")))) =
    length (pieces ChessBoard_init) /\
  (NoDup (pieces ChessBoard_init) ->
   4%nat ∉ pieces (fst (move_piece ChessBoard_init "e2" "e2"))).
Proof. apply (move_piece_onto_itself ChessBoard_init "e2" 4%nat). vm_compute. reflexivity. Defined.

(** ** get_move_evaluation and the move history *)

Lemma move_piece_history b f t l :
  get_piece_at b f = Some l ->
  move_history (fst (move_piece b f t)) = move_history b ++ [token f t].
Proof.
  intros H. unfold move_piece. rewrite H.
  by destruct (get_piece_at b t).
Qed.

(** C9. A call of [get_move_evaluation] with a piece on the source square
    leaves the move history one token longer, the token "from-to" at its
    end: the undo steps do not touch the history, and neither does an
    exception that ends the call early. *)
Theorem get_move_evaluation_history b f t l :
  get_piece_at b f = Some l ->
  move_history (fst (get_move_evaluation b f t)) = move_history b ++ [token f t].
Proof.
  intros H. pose proof (move_piece_history b f t l H) as Hh.
  unfold get_move_evaluation. rewrite H.
  destruct (evaluate _); [|done].
  destruct (get_piece_at (fst (move_piece b f t)) t); [|done].
  by destruct (get_piece_at b t).
Qed.

(** The evaluation of e2-e4 on the starting position. *)
Lemma get_move_evaluation_history_witness :
  move_history (fst (get_move_evaluation ChessBoard_init "e2" "e4")) =
  move_history ChessBoard_init ++ [token "e2" "e4"].
Proof.
  apply (get_move_evaluation_history ChessBoard_init "e2" "e4" 4%nat).
  vm_compute. reflexivity.
Defined.

(** ** Coordinates *)

Lemma coords_to_pos_None file rank :
  coords_to_pos file rank = None <-> ~ on_board file rank.
Proof.
  unfold coords_to_pos, on_board.
  destruct (0 <=? file) eqn:H1, (file <=? 7) eqn:H2,
           (0 <=? rank) eqn:H3, (rank <=? 7) eqn:H4; simpl;
    split; try done; try (intros _; lia); intros Hn; exfalso; apply Hn; lia.
Qed.

(** C8, as the spec states it, does not hold for the label-to-coordinates
    direction: the label "z9" names no square, and [pos_to_coords] still
    returns coordinates for it. *)
Lemma pos_to_coords_accepts_off_board :
  ~ (forall pos, is_valid_position pos = false ->
                 forall v, pos_to_coords pos <> OK v).
Proof.
  intros H. by apply (H "z9" eq_refl (25, 8)).
Qed.

(** C8, amended. [coords_to_pos] returns no value exactly for the pairs
    outside 0..7 x 0..7.  [pos_to_coords] checks no range: a label whose
    second character is a decimal digit is mapped to
    [(ord(c0) - ord('a'), digit - 1)] whatever these are, a label with
    another second character raises [ValueError], and a label shorter
    than two characters raises [IndexError]. *)
Theorem coordinate_conversions :
  (forall file rank, coords_to_pos file rank = None <-> ~ on_board file rank) /\
  (forall c0 c1 rest,
     pos_to_coords (String c0 (String c1 rest)) =
       if (ord "0" <=? ord c1) && (ord c1 <=? ord "9")
       then OK (ord c0 - ord "a", ord c1 - ord "0" - 1)
       else Raise ValueError) /\
  (forall c0, pos_to_coords (String c0 "") = Raise IndexError) /\
  pos_to_coords "" = Raise IndexError.
Proof.
  split; [apply coords_to_pos_None |].
  split; [|done].
  intros c0 c1 rest. unfold pos_to_coords, int_of_char. simpl.
  by destruct ((ord "0" <=? ord c1) && (ord c1 <=? ord "9")).
Qed.

(** ** is_attacked and pawn pushes *)

(** C3 does not hold of the code.  On the starting position e4 is empty
    and the only generated White move that ends on e4 is the double step
    of the e-pawn, which is no capture; [is_attacked] still answers [True]
    for e4.  [detect_weak_squares], which counts the capturing pawn moves
    only, lists e4 as a square that no White pawn covers. *)
Theorem is_attacked_counts_pawn_push :
  get_piece_at ChessBoard_init "e4" = None /\
  is_attacked ChessBoard_init "e4" WHITE = OK true /\
  (exists ms,
     get_legal_moves ChessBoard_init WHITE = OK ms /\
     List.filter (fun m => String.eqb (to_pos m) "e4") ms =
       [Move_init "e2" "e4" 4%nat false] /\
     type (obj ChessBoard_init 4%nat) = PAWN) /\
  (exists ws,
     detect_weak_squares ChessBoard_init WHITE = OK ws /\ "e4" ∈ ws).
Proof.
  split; [done |]. split; [by vm_compute |]. split.
  - eexists. split; [vm_compute; reflexivity |]. by vm_compute.
  - eexists. split; [vm_compute; reflexivity |].
    apply (bool_decide_unpack _). vm_compute. exact I.
Qed.

(** ** Generators return on a placed board *)

Lemma valid_pos_to_coords pos :
  is_valid_position pos = true ->
  exists file rank, pos_to_coords pos = OK (file, rank) /\ on_board file rank.
Proof.
  destruct pos as [|c0 [|c1 [|c2 rest]]]; simpl; try done.
  intros H. apply andb_true_iff in H as [Hf Hr].
  apply bool_decide_eq_true in Hf, Hr. unfold FILES, RANKS in *.
  repeat (apply elem_of_cons in Hf as [-> | Hf]);
    try (by apply elem_of_nil in Hf);
    repeat (apply elem_of_cons in Hr as [-> | Hr]);
    try (by apply elem_of_nil in Hr);
    eexists _, _; (split; [reflexivity | unfold on_board; vm_compute; intuition discriminate]).
Qed.

Lemma piece_moves_at b l file rank :
  pos_to_coords (position (obj b l)) = OK (file, rank) ->
  piece_moves b l = OK (moves_at b l file rank).
Proof.
  intros Hc.
  unfold piece_moves, moves_at, get_queen_moves, get_pawn_moves,
    get_knight_moves, get_bishop_moves, get_rook_moves, get_king_moves.
  destruct (type (obj b l)); rewrite ?Hc; reflexivity.
Qed.

Lemma piece_moves_total b l :
  is_valid_position (position (obj b l)) = true ->
  exists ms, piece_moves b l = OK ms.
Proof.
  intros H. destruct (valid_pos_to_coords _ H) as (file & rank & Hc & _).
  eexists. by apply piece_moves_at.
Qed.

Lemma all_valid_filter b (P : loc -> bool) ps :
  all_valid b ps -> all_valid b (List.filter P ps).
Proof.
  unfold all_valid. rewrite !Forall_forall. intros H l Hin.
  apply H. apply list_elem_of_In in Hin. apply List.filter_In in Hin as [Hin _].
  by apply list_elem_of_In.
Qed.

Lemma placed_by_color b c : placed b -> all_valid b (get_pieces_by_color b c).
Proof. apply all_valid_filter. Qed.

Lemma placed_by_type b t c : placed b -> all_valid b (get_pieces_by_type b t c).
Proof. destruct c; apply all_valid_filter. Qed.

Lemma extend_moves_total b ps acc :
  all_valid b ps -> exists ms, extend_moves b ps acc = OK ms.
Proof.
  intros H. revert acc. induction H as [|l ps Hl _ IH]; intros acc; simpl.
  - by eexists.
  - destruct (piece_moves_total _ _ Hl) as [ms ->]. simpl. apply IH.
Qed.

Lemma get_legal_moves_total b c :
  placed b -> exists ms, get_legal_moves b c = OK ms.
Proof. intros H. apply extend_moves_total. by apply placed_by_color. Qed.

(** ** detect_forks *)

Lemma filter_at_most_one (f : loc -> string) (s : string) (qs : list loc) :
  NoDup (List.map f qs) ->
  (length (List.filter (fun o => String.eqb (f o) s) qs) <= 1)%nat.
Proof.
  induction qs as [|q qs IH]; simpl; [lia |].
  intros Hnd. apply NoDup_cons in Hnd as [Hq Hnd].
  destruct (String.eqb (f q) s) eqn:Heq; [|by apply IH].
  apply String.eqb_eq in Heq. simpl.
  assert (List.filter (fun o => String.eqb (f o) s) qs = []) as ->; [|simpl; lia].
  destruct (List.filter _ qs) as [|o os] eqn:Hf; [done |].
  exfalso. apply Hq.
  assert (In o (List.filter (fun o => String.eqb (f o) s) qs)) as Hin
    by (rewrite Hf; by left).
  apply List.filter_In in Hin as [Hin Ho]. apply String.eqb_eq in Ho.
  apply list_elem_of_In. rewrite Heq, <- Ho. by apply List.in_map.
Qed.

Lemma NoDup_map_filter (f : loc -> string) (P : loc -> bool) (qs : list loc) :
  NoDup (List.map f qs) -> NoDup (List.map f (List.filter P qs)).
Proof.
  induction qs as [|q qs IH]; simpl; [done |].
  intros Hnd. apply NoDup_cons in Hnd as [Hq Hnd].
  destruct (P q); simpl; [|by apply IH].
  apply NoDup_cons. split; [|by apply IH].
  intros Hin. apply Hq. apply list_elem_of_In in Hin.
  apply List.in_map_iff in Hin as (o & Ho & Hin).
  apply List.filter_In in Hin as [Hin _].
  apply list_elem_of_In. rewrite <- Ho. by apply List.in_map.
Qed.

Lemma fork_of_move_none b opponent_pieces l m :
  NoDup (List.map (fun o => position (obj b o)) opponent_pieces) ->
  fork_of_move b opponent_pieces l m = [].
Proof.
  intros Hnd. unfold fork_of_move.
  pose proof (filter_at_most_one (fun o => position (obj b o)) (to_pos m) _ Hnd) as Hle.
  destruct (2 <=? _) eqn:H2; [|done].
  apply Z.leb_le in H2. lia.
Qed.

Lemma detect_forks_loop_inert b opponent_pieces ps forks :
  NoDup (List.map (fun o => position (obj b o)) opponent_pieces) ->
  all_valid b ps ->
  detect_forks_loop b opponent_pieces ps forks = OK forks.
Proof.
  intros Hnd H. revert forks. induction H as [|l ps Hl _ IH]; intros forks; simpl.
  - done.
  - destruct (piece_moves_total _ _ Hl) as [ms ->]. simpl.
    assert (flat_map (fork_of_move b opponent_pieces l) ms = []) as ->.
    { induction ms as [|m ms IHms]; simpl; [done |].
      by rewrite fork_of_move_none, IHms. }
    rewrite app_nil_r. apply IH.
Qed.

(** C6. On a board whose pieces stand on squares of the board, no two of
    them on the same square, [detect_forks] returns the empty list for
    either colour. *)
Theorem detect_forks_inert b c :
  placed b -> one_piece_per_square b -> detect_forks b c = OK [].
Proof.
  intros Hp Hu. unfold detect_forks. apply detect_forks_loop_inert.
  - by apply NoDup_map_filter.
  - by apply placed_by_color.
Qed.

(** ** Rounding *)

Lemma inject_Z_minus (x y : Z) : inject_Z (x - y) = (inject_Z x - inject_Z y)%Q.
Proof. unfold Z.sub, Qminus. rewrite inject_Z_plus, inject_Z_opp. reflexivity. Qed.

Lemma py_round_nearest (x : Q) :
  (Qabs (x - inject_Z (py_round x)) <= 1 # 2)%Q.
Proof.
  unfold py_round.
  pose proof (Qfloor_le x) as Hlo. pose proof (Qlt_floor x) as Hhi.
  rewrite inject_Z_plus in Hhi. change (inject_Z 1) with 1%Q in Hhi.
  apply Qabs_Qle_condition.
  destruct (x - inject_Z (Qfloor x) ?= 1 # 2)%Q eqn:Hc.
  - apply Qeq_alt in Hc.
    destruct (Z.even (Qfloor x)); rewrite ?inject_Z_plus;
      change (inject_Z 1) with 1%Q; split; lra.
  - apply Qlt_alt in Hc. split; lra.
  - apply Qgt_alt in Hc. rewrite inject_Z_plus.
    change (inject_Z 1) with 1%Q. split; lra.
Qed.

(** A multiple of one fifth is never half way between two integers. *)
Lemma py_round_fifths (x : Q) (n : Z) :
  (5 * x == inject_Z n)%Q ->
  (Qabs (x - inject_Z (py_round x)) <= 2 # 5)%Q.
Proof.
  intros Hn. pose proof (py_round_nearest x) as H.
  apply Qabs_Qle_condition in H as [Hlo Hhi].
  set (t := py_round x) in *.
  assert (-3 < n - 5 * t < 3) as Hz.
  { split; rewrite Zlt_Qlt, inject_Z_minus, inject_Z_mult;
      change (inject_Z 5) with 5%Q; change (inject_Z 3) with 3%Q;
      change (inject_Z (-3)) with (-3)%Q; lra. }
  assert (-2 <= n - 5 * t <= 2) as [Hz1 Hz2] by lia.
  rewrite Zle_Qle in Hz1, Hz2.
  rewrite inject_Z_minus, inject_Z_mult in Hz1, Hz2.
  change (inject_Z 5) with 5%Q in Hz1, Hz2.
  change (inject_Z 2) with 2%Q in Hz2. change (inject_Z (-2)) with (-2)%Q in Hz1.
  apply Qabs_Qle_condition. split; lra.
Qed.

Lemma weighted_sum_fifths (m a p k : Z) :
  (5 * weighted_sum (100 * m) (2 * a) (20 * p) (10 * k)
   == inject_Z (200 * m + 3 * a + 20 * p + 5 * k))%Q.
Proof.
  unfold weighted_sum. rewrite !inject_Z_plus, !inject_Z_mult.
  change (inject_Z 100) with 100%Q. change (inject_Z 2) with 2%Q.
  change (inject_Z 20) with 20%Q. change (inject_Z 10) with 10%Q.
  change (inject_Z 200) with 200%Q. change (inject_Z 3) with 3%Q.
  change (inject_Z 5) with 5%Q. lra.
Qed.

(** ** The sub-scores of evaluate *)

Lemma material_fold b ps w bl :
  exists x y,
    foldl (fun '(w, bl) l =>
             if bool_decide (color (obj b l) = WHITE)
             then (w + value (obj b l) * 100, bl)
             else (w, bl + value (obj b l) * 100))
          (100 * w, 100 * bl) ps = (100 * x, 100 * y).
Proof.
  revert w bl. induction ps as [|l ps IH]; intros w bl; simpl.
  - by eexists _, _.
  - case_bool_decide.
    + replace (100 * w + value (obj b l) * 100) with (100 * (w + value (obj b l))) by lia.
      apply IH.
    + replace (100 * bl + value (obj b l) * 100) with (100 * (bl + value (obj b l))) by lia.
      apply IH.
Qed.

Lemma _evaluate_material_hundreds b : exists m, _evaluate_material b = 100 * m.
Proof.
  unfold _evaluate_material.
  destruct (material_fold b (pieces b) 0 0) as (x & y & H).
  change (100 * 0) with 0 in H. rewrite H.
  exists (x - y). lia.
Qed.

Lemma _evaluate_activity_total b :
  placed b -> exists a, _evaluate_activity b = OK (2 * a).
Proof.
  intros Hp. unfold _evaluate_activity.
  destruct (get_legal_moves_total b WHITE Hp) as [w ->].
  destruct (get_legal_moves_total b BLACK Hp) as [bl ->]. simpl.
  exists (Z.of_nat (length w) - Z.of_nat (length bl)). f_equal. lia.
Qed.

Lemma valid_index_0 pos :
  is_valid_position pos = true -> exists c, index pos 0 = OK c.
Proof. destruct pos as [|c0 rest]; [done |]. intros _. by exists c0. Qed.

Lemma count_files_total b pawns files :
  all_valid b pawns -> exists m, count_files b pawns files = OK m.
Proof.
  intros H. revert files. induction H as [|l ps Hl _ IH]; intros files; simpl.
  - by eexists.
  - destruct (valid_index_0 _ Hl) as [c ->]. simpl. apply IH.
Qed.

Lemma doubled_penalty_twenties (files : gmap ascii Z) :
  exists p, doubled_penalty files = 20 * p.
Proof.
  unfold doubled_penalty.
  apply (map_fold_weak_ind (fun score _ => exists p, score = 20 * p)).
  - by exists 0.
  - intros _ count _ score _ [p ->].
    destruct (1 <? count); [|by exists p].
    exists (p - (count - 1)). lia.
Qed.

Lemma _evaluate_pawns_total b :
  placed b -> exists p, _evaluate_pawns b = OK (20 * p).
Proof.
  intros Hp. unfold _evaluate_pawns.
  destruct (count_files_total b (get_pieces_by_type b PAWN (Some WHITE)) ∅)
    as [wf ->]; [by apply placed_by_type |].
  destruct (count_files_total b (get_pieces_by_type b PAWN (Some BLACK)) ∅)
    as [bf ->]; [by apply placed_by_type |]. simpl.
  destruct (doubled_penalty_twenties wf) as [x ->].
  destruct (doubled_penalty_twenties bf) as [y ->].
  exists (x - y). f_equal. lia.
Qed.

Lemma shelter_total b c file rank pawns k :
  all_valid b pawns ->
  exists k', shelter b c file rank pawns (10 * k) = OK (10 * k').
Proof.
  intros H. revert k. induction H as [|l ps Hl _ IH]; intros k; simpl.
  - by eexists.
  - destruct (valid_pos_to_coords _ Hl) as (pf & pr & -> & _). simpl.
    replace (10 * k + 10) with (10 * (k + 1)) by lia.
    destruct (Z.abs (pf - file) <=? 1); [|apply IH].
    destruct (bool_decide (c = WHITE) && (rank - 1 <=? pr)); [apply IH |].
    destruct (bool_decide (c = BLACK) && (pr <=? rank + 1)); apply IH.
Qed.

Lemma _assess_king_safety_total b king c :
  placed b ->
  (forall l, king = Some l -> is_valid_position (position (obj b l)) = true) ->
  exists k, _assess_king_safety b king c = OK (10 * k).
Proof.
  intros Hp Hk. destruct king as [l|]; [|by exists (-20)].
  destruct (valid_pos_to_coords _ (Hk l eq_refl)) as (file & rank & Hc & _).
  destruct (shelter_total b c file rank (get_pieces_by_type b PAWN (Some c)) 0)
    as [k Hs]; [by apply placed_by_type |].
  change (10 * 0) with 0 in Hs.
  unfold _assess_king_safety. rewrite Hc. cbv beta iota delta [mbind Res_bind].
  rewrite Hs. cbv beta iota delta [mret Res_ret].
  destruct (Qltb _ _).
  - exists (k - 3). f_equal. lia.
  - exists k. f_equal.
Qed.

Lemma find_kings_valid b :
  placed b ->
  forall l, (fst (find_kings b) = Some l \/ snd (find_kings b) = Some l) ->
            is_valid_position (position (obj b l)) = true.
Proof.
  unfold placed, find_kings. intros Hp.
  assert (forall acc : option loc * option loc,
    (forall l, fst acc = Some l \/ snd acc = Some l ->
               is_valid_position (position (obj b l)) = true) ->
    forall l,
      fst (foldl (fun '(white_king, black_king) l =>
             if bool_decide (type (obj b l) = KING) then
               if bool_decide (color (obj b l) = WHITE)
               then (Some l, black_king)
               else (white_king, Some l)
             else (white_king, black_king)) acc (pieces b)) = Some l \/
      snd (foldl (fun '(white_king, black_king) l =>
             if bool_decide (type (obj b l) = KING) then
               if bool_decide (color (obj b l) = WHITE)
               then (Some l, black_king)
               else (white_king, Some l)
             else (white_king, black_king)) acc (pieces b)) = Some l ->
      is_valid_position (position (obj b l)) = true) as Hfold.
  { induction Hp as [|x ps Hx _ IH]; intros [wk bk] Hacc; simpl; [done |].
    apply IH. simpl in Hacc.
    repeat case_bool_decide; simpl; try done;
      intros l [Hl | Hl]; try (injection Hl as <-; done); apply Hacc; auto. }
  apply Hfold. simpl. by intros l [? | ?].
Qed.

Lemma _evaluate_king_safety_total b :
  placed b -> exists k, _evaluate_king_safety b = OK (10 * k).
Proof.
  intros Hp. unfold _evaluate_king_safety.
  pose proof (find_kings_valid b Hp) as Hk.
  destruct (find_kings b) as [wk bk]. simpl in Hk.
  destruct (_assess_king_safety_total b wk WHITE Hp) as [x ->];
    [intros l ->; apply Hk; auto |].
  destruct (_assess_king_safety_total b bk BLACK Hp) as [y ->];
    [intros l ->; apply Hk; auto |]. simpl.
  exists (x - y). f_equal. lia.
Qed.

(** ** evaluate *)

(** C1. On a board whose pieces stand on squares of the board, [evaluate]
    returns a record, and its [total] is the weighted sum
    0.40 * material + 0.30 * activity + 0.20 * pawn_structure
    + 0.10 * king_safety of the four returned sub-scores, rounded to the
    nearest integer.  The sum is a multiple of one fifth, so [total] is
    within 2/5 of it and no tie is ever broken. *)
Theorem evaluate_total_is_rounded_weighted_sum b :
  placed b ->
  exists e,
    evaluate b = OK e /\
    total e = py_round (weighted_sum (material e) (activity e)
                          (pawn_structure e) (king_safety e)) /\
    (Qabs (weighted_sum (material e) (activity e) (pawn_structure e) (king_safety e)
           - inject_Z (total e)) <= 2 # 5)%Q.
Proof.
  intros Hp. unfold evaluate.
  destruct (_evaluate_material_hundreds b) as [m Hm].
  destruct (_evaluate_activity_total b Hp) as [a ->].
  destruct (_evaluate_pawns_total b Hp) as [p ->].
  destruct (_evaluate_king_safety_total b Hp) as [k ->].
  cbv beta iota delta [mbind Res_bind mret Res_ret].
  eexists. split; [reflexivity |].
  cbn [total material activity pawn_structure king_safety].
  split; [reflexivity |].
  rewrite Hm. eapply py_round_fifths, weighted_sum_fifths.
Qed.

(** ** detect_hanging_pieces *)

Lemma existsb_to_pos (ms : list Move) (pos : string) :
  existsb (fun m => String.eqb (to_pos m) pos) ms = true <->
  exists m, m ∈ ms /\ to_pos m = pos.
Proof.
  rewrite List.existsb_exists. split; intros (m & Hin & Hm); exists m.
  - split; [by apply list_elem_of_In | by apply String.eqb_eq].
  - split; [by apply list_elem_of_In | by apply String.eqb_eq].
Qed.

Lemma is_attacked_loop_total b pos ps :
  all_valid b ps -> exists v, is_attacked_loop b pos ps = OK v.
Proof.
  induction 1 as [|l ps Hl _ IH]; simpl; [by eexists |].
  destruct (piece_moves_total _ _ Hl) as [ms ->]. simpl.
  destruct (existsb _ ms); [by eexists | done].
Qed.

Lemma is_attacked_total b pos c :
  placed b -> exists v, is_attacked b pos c = OK v.
Proof. intros Hp. apply is_attacked_loop_total. by apply placed_by_color. Qed.

Lemma defended_loop_spec b pos ps :
  all_valid b ps ->
  exists v, defended_loop b pos ps = OK v /\
            (v = true <-> exists d, d ∈ ps /\ reaches b d pos).
Proof.
  induction 1 as [|l ps Hl _ IH]; simpl.
  - exists false. split; [done |]. split; [done |].
    intros (d & Hd & _). by apply elem_of_nil in Hd.
  - destruct (piece_moves_total _ _ Hl) as [ms Hms]. rewrite Hms. simpl.
    destruct (existsb _ ms) eqn:He.
    + exists true. split; [done |]. split; [|done]. intros _.
      apply existsb_to_pos in He as (m & Hin & Hm).
      exists l. split; [apply list_elem_of_here | by exists ms, m].
    + destruct IH as (v & -> & Hv). exists v. split; [done |].
      rewrite Hv. split.
      * intros (d & Hd & Hr). exists d. split; [by apply list_elem_of_further | done].
      * intros (d & Hd & Hr). apply elem_of_cons in Hd as [-> | Hd]; [|by exists d].
        destruct Hr as (ms' & m & Hms' & Hin & Hm).
        rewrite Hms in Hms'. injection Hms' as <-.
        assert (existsb (fun m => String.eqb (to_pos m) pos) ms = true) as Ht
          by (apply existsb_to_pos; by exists m).
        congruence.
Qed.

Lemma hanging_loop_filter b c all ps acc :
  placed b -> all_valid b all ->
  hanging_loop b c all ps acc =
    OK (acc ++ List.map (fun l => mkHanging l (position (obj b l)) (value (obj b l)))
                 (List.filter (hangs b c all) ps)).
Proof.
  intros Hp Hall. revert acc.
  induction ps as [|l ps IH]; intros acc; simpl.
  - by rewrite app_nil_r.
  - unfold hangs at 1.
    destruct (bool_decide (type (obj b l) = KING) || (value (obj b l) =? 0));
      simpl; [apply IH |].
    destruct (is_attacked_total b (position (obj b l)) (opposite c) Hp) as [a ->].
    destruct a; simpl; [|apply IH].
    destruct (defended_loop_spec b (position (obj b l)) all Hall) as (d & -> & _).
    destruct d; simpl; [apply IH |].
    rewrite IH. by rewrite <- app_assoc.
Qed.

Lemma hanging_piece_map b (ls : list loc) :
  List.map hanging_piece
    (List.map (fun l => mkHanging l (position (obj b l)) (value (obj b l))) ls) = ls.
Proof. induction ls as [|l ls IH]; simpl; [done | by rewrite IH]. Qed.

(** *** No generated move lands on a friendly piece *)

Lemma pawn_forward_target b l file rank :
  Forall (fun m => target_ok b l (to_pos m)) (pawn_forward b l file rank).
Proof.
  unfold pawn_forward, occupied, target_ok.
  destruct (_ && _); [|done].
  destruct (coords_to_pos file _) as [new_pos|]; [|done].
  destruct (get_piece_at b new_pos) eqn:H1; simpl; [done |].
  constructor; [simpl; by rewrite H1 |].
  destruct (rank =? _); [|done].
  destruct (coords_to_pos file _) as [new_pos_2|]; [|done].
  destruct (get_piece_at b new_pos_2) eqn:H2; simpl; [done |].
  constructor; [simpl; by rewrite H2 | done].
Qed.

Lemma pawn_captures_target b l file rank :
  Forall (fun m => target_ok b l (to_pos m)) (pawn_captures b l file rank).
Proof.
  unfold pawn_captures. apply List.Forall_flat_map, Forall_forall.
  intros file_offset _.
  destruct (coords_to_pos _ _) as [capture_pos|]; [|done].
  destruct (get_piece_at b capture_pos) as [target|] eqn:Ht; [|done].
  case_bool_decide as Hc; [|done].
  constructor; [|done]. unfold target_ok. simpl. by rewrite Ht.
Qed.

Lemma step_moves_target b l file rank offsets :
  Forall (fun m => target_ok b l (to_pos m)) (step_moves b l file rank offsets).
Proof.
  unfold step_moves. apply List.Forall_flat_map, Forall_forall.
  intros [file_offset rank_offset] _.
  destruct (coords_to_pos _ _) as [new_pos|]; [|done].
  destruct (get_piece_at b new_pos) as [target|] eqn:Ht.
  - case_bool_decide as Hc; [|done].
    constructor; [|done]. unfold target_ok. simpl. by rewrite Ht.
  - constructor; [|done]. unfold target_ok. simpl. by rewrite Ht.
Qed.

Lemma ray_target b l file rank file_dir rank_dir distances :
  Forall (fun m => target_ok b l (to_pos m))
         (ray b l file rank file_dir rank_dir distances).
Proof.
  induction distances as [|distance rest IH]; simpl; [done |].
  destruct (coords_to_pos _ _) as [new_pos|]; [|done].
  destruct (get_piece_at b new_pos) as [target|] eqn:Ht.
  - case_bool_decide as Hc; [|done].
    constructor; [|done]. unfold target_ok. simpl. by rewrite Ht.
  - constructor; [|done]. unfold target_ok. simpl. by rewrite Ht.
Qed.

Lemma ray_moves_target b l file rank directions :
  Forall (fun m => target_ok b l (to_pos m)) (ray_moves b l file rank directions).
Proof.
  unfold ray_moves. apply List.Forall_flat_map, Forall_forall.
  intros [file_dir rank_dir] _. apply ray_target.
Qed.

Lemma moves_at_target b l file rank :
  Forall (fun m => target_ok b l (to_pos m)) (moves_at b l file rank).
Proof.
  unfold moves_at. destruct (type (obj b l)); rewrite ?Forall_app;
    auto using pawn_forward_target, pawn_captures_target, step_moves_target,
      ray_moves_target.
Qed.

Lemma get_piece_at_unique b l :
  one_piece_per_square b -> l ∈ pieces b ->
  get_piece_at b (position (obj b l)) = Some l.
Proof.
  unfold one_piece_per_square, get_piece_at.
  induction (pieces b) as [|x ps IH]; simpl; intros Hnd Hin.
  - by apply elem_of_nil in Hin.
  - apply NoDup_cons in Hnd as [Hx Hnd].
    destruct (String.eqb _ _) eqn:Heq.
    + apply String.eqb_eq in Heq.
      apply elem_of_cons in Hin as [-> | Hin]; [done |].
      exfalso. apply Hx. rewrite Heq.
      apply list_elem_of_In.
      apply (List.in_map (fun l => position (obj b l))). by apply list_elem_of_In.
    + apply elem_of_cons in Hin as [-> | Hin]; [|by apply IH].
      by rewrite String.eqb_refl in Heq.
Qed.

(** With one piece per square no piece is ever found to be defended: the
    generators emit no move onto a square that a piece of the same colour
    holds. *)
Lemma no_friendly_defender b c l d :
  placed b -> one_piece_per_square b ->
  l ∈ get_pieces_by_color b c -> d ∈ get_pieces_by_color b c ->
  ~ reaches b d (position (obj b l)).
Proof.
  intros Hp Hu Hl Hd (ms & m & Hms & Hin & Hm).
  apply list_elem_of_In, List.filter_In in Hl as [Hl Hlc].
  apply list_elem_of_In, List.filter_In in Hd as [Hd Hdc].
  apply bool_decide_eq_true in Hlc, Hdc. apply list_elem_of_In in Hl, Hd.
  unfold placed in Hp. rewrite Forall_forall in Hp.
  destruct (valid_pos_to_coords _ (Hp d Hd)) as (file & rank & Hc & _).
  rewrite (piece_moves_at _ _ _ _ Hc) in Hms. injection Hms as <-.
  pose proof (moves_at_target b d file rank) as Ht.
  rewrite Forall_forall in Ht. specialize (Ht m Hin).
  unfold target_ok in Ht. rewrite Hm, (get_piece_at_unique b l Hu Hl) in Ht.
  congruence.
Qed.

(** So, with one piece per square, the result lists exactly the pieces of
    the colour that are no king and whose square [is_attacked] holds of. *)
Lemma detect_hanging_pieces_attacked b c :
  placed b -> valued b -> one_piece_per_square b ->
  exists hs,
    detect_hanging_pieces b c = OK hs /\
    forall l,
      l ∈ List.map hanging_piece hs <->
      l ∈ get_pieces_by_color b c /\ type (obj b l) <> KING /\
      is_attacked b (position (obj b l)) (opposite c) = OK true.
Proof.
  intros Hp Hv Hu. unfold detect_hanging_pieces.
  pose proof (placed_by_color b c Hp) as Hall.
  rewrite (hanging_loop_filter b c _ _ [] Hp Hall).
  eexists. split; [reflexivity |].
  intros l. simpl. rewrite hanging_piece_map.
  rewrite list_elem_of_In, List.filter_In, <- list_elem_of_In.
  split.
  - intros [Hl Hh]. split; [done |]. unfold hangs in Hh.
    apply andb_true_iff in Hh as [Hh _]. apply andb_true_iff in Hh as [Hk Ha].
    apply negb_true_iff, orb_false_iff in Hk as [Hk _].
    apply bool_decide_eq_false in Hk. split; [done |].
    destruct (is_attacked b _ _) as [[|]|]; done.
  - intros (Hl & Hk & Ha). split; [done |]. unfold hangs. rewrite Ha.
    assert ((value (obj b l) =? 0) = false) as ->.
    { assert (l ∈ pieces b) as Hin.
      { apply list_elem_of_In in Hl. apply List.filter_In in Hl as [Hl _].
        by apply list_elem_of_In. }
      unfold valued in Hv. rewrite Forall_forall in Hv. rewrite (Hv l Hin).
      by destruct (type (obj b l)). }
    rewrite bool_decide_eq_false_2 by done. simpl.
    destruct (defended_loop_spec b (position (obj b l)) _ Hall) as (v & -> & Hdef).
    destruct v; [|done]. exfalso.
    destruct Hdef as [Hdef _]. destruct (Hdef eq_refl) as (d & Hd & Hr).
    by apply (no_friendly_defender b c l d).
Qed.

(** ** get_move_evaluation on the starting position *)

(** C2. For every move that move generation produces on the starting
    position, for either colour, [get_move_evaluation] on its squares
    returns and leaves the board with the same pieces, each of the same
    type and colour on the same square; the only change to a piece is the
    move count of the moved piece, which stays one higher. *)
Theorem get_move_evaluation_round_trip (c : Color) :
  exists ms,
    get_legal_moves ChessBoard_init c = OK ms /\
    Forall (round_trip ChessBoard_init) ms.
Proof.
  destruct c; (eexists; split; [vm_compute; reflexivity |]);
    apply (bool_decide_unpack _); vm_compute; exact I.
Qed.

(** ** Instances on a played position *)

(** The evaluation of the position after 1. e4 d5. *)
Lemma evaluate_total_is_rounded_weighted_sum_witness :
  exists e,
    evaluate after_e4_d5 = OK e /\
    total e = py_round (weighted_sum (material e) (activity e)
                          (pawn_structure e) (king_safety e)) /\
    (Qabs (weighted_sum (material e) (activity e) (pawn_structure e) (king_safety e)
           - inject_Z (total e)) <= 2 # 5)%Q.
Proof.
  apply (evaluate_total_is_rounded_weighted_sum after_e4_d5).
  unfold placed. apply (bool_decide_unpack _). vm_compute. exact I.
Defined.

(** No fork for White after 1. e4 d5. *)
Lemma detect_forks_inert_witness : detect_forks after_e4_d5 WHITE = OK [].
Proof.
  apply (detect_forks_inert after_e4_d5 WHITE).
  - unfold placed. apply (bool_decide_unpack _). vm_compute. exact I.
  - unfold one_piece_per_square. apply (bool_decide_unpack _). vm_compute. exact I.
Defined.


(** * Further properties *)

(** ** Coordinates: round trip *)

Lemma on_board_cases file rank :
  on_board file rank ->
  In file [0; 1; 2; 3; 4; 5; 6; 7] /\ In rank [0; 1; 2; 3; 4; 5; 6; 7].
Proof. unfold on_board. simpl. lia. Qed.

Lemma coords_to_pos_Some file rank pos :
  coords_to_pos file rank = Some pos -> on_board file rank.
Proof.
  intros H. destruct (decide (on_board file rank)) as [|Hn]; [done |].
  apply coords_to_pos_None in Hn. congruence.
Qed.

Lemma coords_to_pos_back file rank pos :
  coords_to_pos file rank = Some pos ->
  pos_to_coords pos = OK (file, rank) /\ is_valid_position pos = true.
Proof.
  intros H. pose proof (coords_to_pos_Some _ _ _ H) as Hb.
  apply on_board_cases in Hb as [Hf Hr]. simpl in Hf, Hr.
  repeat (destruct Hf as [<- | Hf]; [|]); try done;
    repeat (destruct Hr as [<- | Hr]; [|]); try done;
    injection H as <-; by vm_compute.
Qed.

(** X1. The two coordinate conversions are inverse to each other on the
    board: a label that [coords_to_pos] returns is a valid position that
    [pos_to_coords] maps back to the same pair, and a valid position is
    mapped by [pos_to_coords] to a pair that [coords_to_pos] maps back to
    it. *)
Theorem coords_round_trip :
  (forall file rank pos,
     coords_to_pos file rank = Some pos ->
     pos_to_coords pos = OK (file, rank) /\ is_valid_position pos = true) /\
  (forall pos,
     is_valid_position pos = true ->
     exists file rank,
       pos_to_coords pos = OK (file, rank) /\ coords_to_pos file rank = Some pos).
Proof.
  split; [apply coords_to_pos_back |].
  intros pos. destruct pos as [|c0 [|c1 [|c2 rest]]]; simpl; try done.
  intros H. apply andb_true_iff in H as [Hf Hr].
  apply bool_decide_eq_true in Hf, Hr. unfold FILES, RANKS in *.
  repeat (apply elem_of_cons in Hf as [-> | Hf]);
    try (by apply elem_of_nil in Hf);
    repeat (apply elem_of_cons in Hr as [-> | Hr]);
    try (by apply elem_of_nil in Hr);
    eexists _, _; (split; [reflexivity | by vm_compute]).
Qed.

(** ** Generated moves *)

Lemma quiet_move_well_formed b l file rank pos :
  coords_to_pos file rank = Some pos ->
  get_piece_at b pos = None ->
  well_formed_move b l (Move_init (position (obj b l)) pos l false).
Proof.
  intros Hc Hn. destruct (coords_to_pos_back _ _ _ Hc) as [_ Hv].
  unfold well_formed_move, target_ok. simpl. rewrite Hn.
  repeat split; done.
Qed.

Lemma capture_well_formed b l file rank pos x :
  coords_to_pos file rank = Some pos ->
  get_piece_at b pos = Some x ->
  color (obj b x) <> color (obj b l) ->
  well_formed_move b l (Move_init (position (obj b l)) pos l true).
Proof.
  intros Hc Hx Hne. destruct (coords_to_pos_back _ _ _ Hc) as [_ Hv].
  unfold well_formed_move, target_ok. simpl. rewrite Hx.
  repeat split; done.
Qed.

Lemma not_occupied b pos :
  negb (occupied b pos) = true -> get_piece_at b pos = None.
Proof.
  unfold occupied. intros H%negb_true_iff%bool_decide_eq_false.
  destruct (get_piece_at b pos); [by destruct H | done].
Qed.

(** Walks down the [if]s and [match]es of a generator, one list cell at a
    time. *)
Ltac walk_moves :=
  repeat match goal with
    | |- Forall _ [] => constructor
    | |- Forall _ (_ :: _) => constructor
    | |- Forall _ (if ?c then _ else _) => destruct c eqn:?
    | |- Forall _ (match ?c with Some _ => _ | None => _ end) => destruct c eqn:?
    | H : negb (occupied _ _) = true |- _ => apply not_occupied in H
    | H : bool_decide _ = true |- _ => apply bool_decide_eq_true in H
    | |- well_formed_move _ _ (Move_init _ _ _ false) =>
        eapply quiet_move_well_formed; eassumption
    | |- well_formed_move _ _ (Move_init _ _ _ true) =>
        eapply capture_well_formed; eassumption
    end.

Lemma pawn_forward_well_formed b l file rank :
  Forall (well_formed_move b l) (pawn_forward b l file rank).
Proof. unfold pawn_forward. cbv zeta. walk_moves. Qed.

Lemma pawn_captures_well_formed b l file rank :
  Forall (well_formed_move b l) (pawn_captures b l file rank).
Proof.
  unfold pawn_captures. apply List.Forall_flat_map, Forall_forall.
  intros file_offset _. cbv zeta. walk_moves.
Qed.

Lemma step_moves_well_formed b l file rank offsets :
  Forall (well_formed_move b l) (step_moves b l file rank offsets).
Proof.
  unfold step_moves. apply List.Forall_flat_map, Forall_forall.
  intros [file_offset rank_offset] _. cbv zeta. walk_moves.
Qed.

Lemma ray_well_formed b l file rank file_dir rank_dir distances :
  Forall (well_formed_move b l) (ray b l file rank file_dir rank_dir distances).
Proof.
  induction distances as [|distance rest IH]; simpl; [constructor |].
  walk_moves. exact IH.
Qed.

Lemma ray_moves_well_formed b l file rank directions :
  Forall (well_formed_move b l) (ray_moves b l file rank directions).
Proof.
  unfold ray_moves. apply List.Forall_flat_map, Forall_forall.
  intros [file_dir rank_dir] _. apply ray_well_formed.
Qed.

Lemma moves_at_well_formed b l file rank :
  Forall (well_formed_move b l) (moves_at b l file rank).
Proof.
  unfold moves_at. destruct (type (obj b l)); rewrite ?Forall_app;
    auto using pawn_forward_well_formed, pawn_captures_well_formed,
      step_moves_well_formed, ray_moves_well_formed.
Qed.

(** X2. For a piece that stands on a square of the board the generator of
    its type returns, and every move it returns starts on the square of
    the piece, ends on a square of the board, lands on an empty square or
    on a piece of the other colour, is flagged as a capture exactly when
    the destination is occupied, and has no check, checkmate, castling or
    promotion mark. *)
Theorem generated_moves_well_formed b l :
  is_valid_position (position (obj b l)) = true ->
  exists ms, piece_moves b l = OK ms /\ Forall (well_formed_move b l) ms.
Proof.
  intros H. destruct (valid_pos_to_coords _ H) as (file & rank & Hc & _).
  exists (moves_at b l file rank).
  split; [by apply piece_moves_at | apply moves_at_well_formed].
Qed.

(** The knight on b1 of the starting position. *)
Lemma generated_moves_well_formed_witness :
  exists ms,
    piece_moves ChessBoard_init b1_knight = OK ms /\
    Forall (well_formed_move ChessBoard_init b1_knight) ms.
Proof. apply (generated_moves_well_formed ChessBoard_init b1_knight). vm_compute. reflexivity. Defined.

(** *** How many moves a piece can have *)

Lemma flat_map_length_le {A B} (f : A -> list B) (n : nat) (xs : list A) :
  (forall x, (length (f x) <= n)%nat) ->
  (length (flat_map f xs) <= n * length xs)%nat.
Proof.
  intros Hf. induction xs as [|x xs IH]; simpl; [lia |].
  rewrite length_app. specialize (Hf x). lia.
Qed.

Lemma pawn_forward_length b l file rank :
  (length (pawn_forward b l file rank) <= 2)%nat.
Proof.
  unfold pawn_forward.
  repeat (match goal with
          | |- context [if ?c then _ else _] => destruct c
          | |- context [match ?c with Some _ => _ | None => _ end] => destruct c
          end; simpl; try lia).
Qed.

Lemma pawn_captures_length b l file rank :
  (length (pawn_captures b l file rank) <= 2)%nat.
Proof.
  unfold pawn_captures.
  match goal with
  | |- (length (flat_map ?f ?xs) <= _)%nat =>
      assert (forall x, (length (f x) <= 1)%nat) as Hf;
      [|pose proof (flat_map_length_le f 1 xs Hf) as Hle]
  end.
  - intros x.
    repeat (match goal with
            | |- context [if ?c then _ else _] => destruct c
            | |- context [match ?c with Some _ => _ | None => _ end] => destruct c
            end; simpl; try lia).
  - etransitivity; [exact Hle | simpl; lia].
Qed.

Lemma step_moves_length b l file rank offsets :
  (length (step_moves b l file rank offsets) <= length offsets)%nat.
Proof.
  unfold step_moves.
  match goal with
  | |- (length (flat_map ?f ?xs) <= _)%nat =>
      assert (forall x, (length (f x) <= 1)%nat) as Hf;
      [|pose proof (flat_map_length_le f 1 xs Hf) as Hle]
  end.
  - intros [x y].
    repeat (match goal with
            | |- context [if ?c then _ else _] => destruct c
            | |- context [match ?c with Some _ => _ | None => _ end] => destruct c
            end; simpl; try lia).
  - etransitivity; [exact Hle | lia].
Qed.

Lemma ray_length b l file rank file_dir rank_dir distances :
  (length (ray b l file rank file_dir rank_dir distances)
   <= reach file rank file_dir rank_dir distances)%nat.
Proof.
  induction distances as [|distance rest IH]; simpl; [lia |].
  destruct (coords_to_pos _ _); [|simpl; lia].
  destruct (get_piece_at b _); [|simpl; lia].
  case_bool_decide; simpl; lia.
Qed.

Lemma ray_moves_length b l file rank directions :
  (length (ray_moves b l file rank directions) <= reach_all file rank directions)%nat.
Proof.
  unfold ray_moves, reach_all.
  induction directions as [|[fd rd] ds IH]; [simpl; lia |].
  cbn [flat_map foldr]. rewrite length_app.
  pose proof (ray_length b l file rank fd rd range_1_8). lia.
Qed.

Lemma reach_on_board file rank :
  on_board file rank ->
  (reach_all file rank rook_directions <= 14)%nat /\
  (reach_all file rank bishop_directions <= 13)%nat.
Proof.
  intros Hb. apply on_board_cases in Hb as [Hf Hr]. simpl in Hf, Hr.
  repeat (destruct Hf as [<- | Hf]; [|]); try done;
    repeat (destruct Hr as [<- | Hr]; [|]); try done;
    vm_compute; split; repeat constructor.
Qed.

(** X3. A piece on a square of the board has at most 4 moves if it is a
    pawn, 8 if it is a knight or a king, 13 if it is a bishop, 14 if it is
    a rook and 27 if it is a queen, whatever else is on the board. *)
Theorem generated_moves_bounded b l :
  is_valid_position (position (obj b l)) = true ->
  exists ms,
    piece_moves b l = OK ms /\
    (length ms <= max_moves (type (obj b l)))%nat.
Proof.
  intros H. destruct (valid_pos_to_coords _ H) as (file & rank & Hc & Hb).
  exists (moves_at b l file rank). split; [by apply piece_moves_at |].
  destruct (reach_on_board file rank Hb) as [Hrook Hbishop].
  pose proof (ray_moves_length b l file rank rook_directions).
  pose proof (ray_moves_length b l file rank bishop_directions).
  pose proof (pawn_forward_length b l file rank).
  pose proof (pawn_captures_length b l file rank).
  pose proof (step_moves_length b l file rank knight_offsets) as Hkn.
  pose proof (step_moves_length b l file rank king_directions) as Hki.
  change (length knight_offsets) with 8%nat in Hkn.
  change (length king_directions) with 8%nat in Hki.
  unfold moves_at. destruct (type (obj b l)); unfold max_moves;
    rewrite ?length_app; lia.
Qed.

(** The knight on b1 of the starting position. *)
Lemma generated_moves_bounded_witness :
  exists ms,
    piece_moves ChessBoard_init b1_knight = OK ms /\
    (length ms <= max_moves (type (obj ChessBoard_init b1_knight)))%nat.
Proof. apply (generated_moves_bounded ChessBoard_init b1_knight). vm_compute. reflexivity. Defined.

(** *** All moves of a colour *)

Lemma moves_of_OK b l ms : piece_moves b l = OK ms -> moves_of b l = ms.
Proof. unfold moves_of. by intros ->. Qed.

Lemma extend_moves_flat b ps acc :
  all_valid b ps ->
  extend_moves b ps acc = OK (acc ++ flat_map (moves_of b) ps).
Proof.
  intros H. revert acc. induction H as [|l ps Hl _ IH]; intros acc; simpl.
  - by rewrite app_nil_r.
  - destruct (piece_moves_total _ _ Hl) as [ms Hms].
    rewrite (moves_of_OK _ _ _ Hms), Hms. simpl.
    rewrite IH. by rewrite <- app_assoc.
Qed.

Lemma get_legal_moves_flat b c :
  placed b ->
  get_legal_moves b c = OK (flat_map (moves_of b) (get_pieces_by_color b c)).
Proof.
  intros Hp. unfold get_legal_moves.
  by rewrite (extend_moves_flat b _ [] (placed_by_color b c Hp)).
Qed.

Lemma by_color_elem b c l :
  l ∈ get_pieces_by_color b c <-> l ∈ pieces b /\ color (obj b l) = c.
Proof.
  unfold get_pieces_by_color.
  rewrite list_elem_of_In, List.filter_In, <- list_elem_of_In.
  by rewrite bool_decide_eq_true.
Qed.

Lemma moves_of_well_formed b l :
  is_valid_position (position (obj b l)) = true ->
  Forall (well_formed_move b l) (moves_of b l).
Proof.
  intros H. destruct (valid_pos_to_coords _ H) as (file & rank & Hc & _).
  rewrite (moves_of_OK _ _ _ (piece_moves_at _ _ _ _ Hc)).
  apply moves_at_well_formed.
Qed.

(** X4. On a board whose pieces stand on squares of the board,
    [get_legal_moves c] returns, and every move in its result is a move of
    a piece of colour [c] that is on the board: it starts on the square of
    that piece, ends on a square of the board, and lands on an empty
    square or captures a piece of the other colour. *)
Theorem legal_moves_belong_to_colour b c :
  placed b ->
  exists ms,
    get_legal_moves b c = OK ms /\
    Forall (fun m =>
              piece m ∈ pieces b /\ color (obj b (piece m)) = c /\
              well_formed_move b (piece m) m) ms.
Proof.
  intros Hp. eexists. split; [by apply get_legal_moves_flat |].
  apply List.Forall_flat_map, Forall_forall. intros l Hl.
  apply by_color_elem in Hl as [Hl Hc].
  unfold placed in Hp. rewrite Forall_forall in Hp.
  pose proof (moves_of_well_formed b l (Hp l Hl)) as Hwf.
  eapply Forall_impl; [exact Hwf |].
  intros m Hm. assert (piece m = l) as -> by apply Hm. done.
Qed.

(** The moves of White after 1. e4 d5. *)
Lemma legal_moves_belong_to_colour_witness :
  exists ms,
    get_legal_moves after_e4_d5 WHITE = OK ms /\
    Forall (fun m =>
              piece m ∈ pieces after_e4_d5 /\
              color (obj after_e4_d5 (piece m)) = WHITE /\
              well_formed_move after_e4_d5 (piece m) m) ms.
Proof.
  apply (legal_moves_belong_to_colour after_e4_d5 WHITE).
  unfold placed. apply (bool_decide_unpack _). vm_compute. exact I.
Defined.

Lemma is_attacked_loop_flat b pos ps :
  all_valid b ps ->
  is_attacked_loop b pos ps =
    OK (existsb (fun m => String.eqb (to_pos m) pos) (flat_map (moves_of b) ps)).
Proof.
  induction 1 as [|l ps Hl _ IH]; simpl; [done |].
  destruct (piece_moves_total _ _ Hl) as [ms Hms].
  rewrite (moves_of_OK _ _ _ Hms), Hms. simpl.
  rewrite List.existsb_app. destruct (existsb _ ms); [done |]. by rewrite IH.
Qed.

(** X5. On a board whose pieces stand on squares of the board,
    [is_attacked pos c] returns, and it answers [True] exactly when some
    move of [get_legal_moves c] ends on [pos]. *)
Theorem is_attacked_iff_legal_move b pos c :
  placed b ->
  exists v ms,
    is_attacked b pos c = OK v /\
    get_legal_moves b c = OK ms /\
    (v = true <-> exists m, m ∈ ms /\ to_pos m = pos).
Proof.
  intros Hp. eexists _, _.
  split; [by apply is_attacked_loop_flat, placed_by_color |].
  split; [by apply get_legal_moves_flat |].
  apply existsb_to_pos.
Qed.

(** Whether White attacks d5 after 1. e4 d5. *)
Lemma is_attacked_iff_legal_move_witness :
  exists v ms,
    is_attacked after_e4_d5 "d5" WHITE = OK v /\
    get_legal_moves after_e4_d5 WHITE = OK ms /\
    (v = true <-> exists m, m ∈ ms /\ to_pos m = "d5").
Proof.
  apply (is_attacked_iff_legal_move after_e4_d5 "d5" WHITE).
  unfold placed. apply (bool_decide_unpack _). vm_compute. exact I.
Defined.

(** ** move_piece: what it leaves behind *)

Lemma obj_with_heap_insert b l p y :
  obj (with_heap (<[l := p]> (heap b)) b) y = if decide (y = l) then p else obj b y.
Proof.
  unfold obj. simpl. destruct (decide (y = l)) as [-> | Hne].
  - by rewrite lookup_total_insert_eq.
  - by rewrite lookup_total_insert_ne.
Qed.

Lemma move_piece_Some b f t l :
  get_piece_at b f = Some l ->
  snd (move_piece b f t) = true /\
  pieces (fst (move_piece b f t)) =
    match get_piece_at b t with
    | Some x => remove_first x (pieces b)
    | None => pieces b
    end /\
  forall y,
    obj (fst (move_piece b f t)) y =
      if decide (y = l) then moved t (obj b l) else obj b y.
Proof.
  intros H. unfold move_piece. rewrite H.
  split; [done |]. split; [by destruct (get_piece_at b t) |].
  intros y. cbn [fst]. unfold moved.
  destruct (get_piece_at b t) as [x|];
    unfold obj; simpl; destruct (decide (y = l)) as [-> | Hne];
    rewrite ?lookup_total_insert_eq, ?lookup_total_insert_ne by done; done.
Qed.

Lemma remove_first_elem x y xs : y ∈ remove_first x xs -> y ∈ xs.
Proof.
  induction xs as [|z zs IH]; simpl; [done |].
  rewrite !elem_of_cons. case_bool_decide; intros Hin; [by right |].
  apply elem_of_cons in Hin as [-> | Hin]; [by left | right; by apply IH].
Qed.

Lemma remove_first_elem_ne x y xs : y ∈ xs -> y <> x -> y ∈ remove_first x xs.
Proof.
  induction xs as [|z zs IH]; simpl; [done |].
  intros Hin Hne. case_bool_decide as Hz.
  - apply elem_of_cons in Hin as [-> | Hin]; [by subst | done].
  - apply elem_of_cons in Hin as [-> | Hin]; [apply list_elem_of_here |].
    apply list_elem_of_further. by apply IH.
Qed.

Lemma remove_first_Permutation x xs : x ∈ xs -> xs ≡ₚ x :: remove_first x xs.
Proof.
  induction xs as [|z zs IH]; intros Hin; [by apply elem_of_nil in Hin |].
  simpl. case_bool_decide as Hz; [by subst |].
  apply elem_of_cons in Hin as [-> | Hin]; [done |].
  rewrite (IH Hin) at 1. apply perm_swap.
Qed.

Lemma NoDup_map_inv (g : loc -> string) (ps : list loc) :
  NoDup (List.map g ps) -> NoDup ps.
Proof.
  induction ps as [|y ys IH]; simpl; [constructor |].
  intros [Hy Hnd]%NoDup_cons. apply NoDup_cons. split; [|by apply IH].
  intros Hin. apply Hy, list_elem_of_In, List.in_map. by apply list_elem_of_In.
Qed.

Lemma NoDup_map_remove_first (g : loc -> string) x (ps : list loc) :
  NoDup (List.map g ps) -> NoDup (List.map g (remove_first x ps)).
Proof.
  induction ps as [|y ys IH]; simpl; [done |].
  intros [Hy Hnd]%NoDup_cons. case_bool_decide; [done |].
  simpl. apply NoDup_cons. split; [|by apply IH].
  intros Hin. apply Hy. apply list_elem_of_In, List.in_map_iff in Hin as (z & Hz & Hin).
  apply list_elem_of_In. rewrite <- Hz. apply List.in_map.
  apply list_elem_of_In. eapply remove_first_elem. by apply list_elem_of_In.
Qed.

Lemma NoDup_map_override (g : loc -> string) (l : loc) (t : string) (ps : list loc) :
  NoDup (List.map g ps) ->
  (forall y, y ∈ ps -> y <> l -> g y <> t) ->
  NoDup (List.map (fun y => if decide (y = l) then t else g y) ps).
Proof.
  induction ps as [|y ys IH]; simpl; [constructor |].
  intros [Hy Hnd]%NoDup_cons Hfree. apply NoDup_cons. split.
  - intros Hin. apply list_elem_of_In, List.in_map_iff in Hin as (z & Hz & Hin).
    apply list_elem_of_In in Hin.
    destruct (decide (y = l)) as [-> | Hyl], (decide (z = l)) as [-> | Hzl].
    + apply Hy, list_elem_of_In, List.in_map. by apply list_elem_of_In.
    + apply (Hfree z); [by apply list_elem_of_further | done | done].
    + apply (Hfree y); [apply list_elem_of_here | done | done].
    + apply Hy. rewrite <- Hz. apply list_elem_of_In, List.in_map.
      by apply list_elem_of_In.
  - apply IH; [done |]. intros z Hz. apply Hfree. by apply list_elem_of_further.
Qed.

Lemma get_piece_at_None b pos :
  get_piece_at b pos = None <->
  forall y, y ∈ pieces b -> position (obj b y) <> pos.
Proof.
  unfold get_piece_at. split.
  - intros H y Hy Heq.
    pose proof (List.find_none _ _ H y (proj1 (list_elem_of_In _ _) Hy)) as Hf.
    simpl in Hf. apply String.eqb_neq in Hf. done.
  - intros H. destruct (List.find _ _) as [y|] eqn:Hf; [|done].
    apply find_some_elem in Hf as [Hin Heq]. apply String.eqb_eq in Heq.
    by destruct (H y Hin).
Qed.

Lemma get_piece_at_iff b pos y :
  one_piece_per_square b ->
  get_piece_at b pos = Some y <-> y ∈ pieces b /\ position (obj b y) = pos.
Proof.
  intros Hu. split; [apply get_piece_at_Some |].
  intros [Hin <-]. by apply get_piece_at_unique.
Qed.

(** The squares of the pieces that stay, after the piece [l] went to [t]. *)
Lemma move_piece_free_square b f t l y :
  one_piece_per_square b ->
  get_piece_at b f = Some l ->
  y ∈ pieces (fst (move_piece b f t)) -> y <> l ->
  position (obj b y) <> t.
Proof.
  intros Hu Hl Hy Hne Hpos.
  destruct (move_piece_Some b f t l Hl) as (_ & Hps & _). rewrite Hps in Hy.
  assert (y ∈ pieces b) as Hin
    by (destruct (get_piece_at b t); [by eapply remove_first_elem | done]).
  rewrite (proj2 (get_piece_at_iff b t y Hu) (conj Hin Hpos)) in Hy.
  by apply (remove_first_NoDup y (pieces b)); [eapply NoDup_map_inv |].
Qed.

Lemma move_piece_unique_squares b f t :
  one_piece_per_square b -> one_piece_per_square (fst (move_piece b f t)).
Proof.
  intros Hu. destruct (get_piece_at b f) as [l|] eqn:Hl.
  2: { unfold move_piece. by rewrite Hl. }
  destruct (move_piece_Some b f t l Hl) as (_ & Hps & Hobj).
  unfold one_piece_per_square.
  rewrite (List.map_ext _ (fun y => if decide (y = l) then t else position (obj b y))).
  2: { intros y. rewrite Hobj. by destruct (decide (y = l)). }
  apply NoDup_map_override.
  - rewrite Hps. destruct (get_piece_at b t); [by apply NoDup_map_remove_first | done].
  - intros y Hy Hne. by eapply move_piece_free_square.
Qed.

(** X6. [move_piece] keeps the board invariant that no two pieces stand on
    the same square, for any source and destination, also when the move
    captures and when it fails. *)
Theorem move_piece_keeps_one_piece_per_square b f t :
  one_piece_per_square b -> one_piece_per_square (fst (move_piece b f t)).
Proof. apply move_piece_unique_squares. Qed.

(** The move e2-e4 on the starting position. *)
Lemma move_piece_keeps_one_piece_per_square_witness :
  one_piece_per_square (fst (move_piece ChessBoard_init "e2" "e4")).
Proof.
  apply (move_piece_keeps_one_piece_per_square ChessBoard_init "e2" "e4").
  unfold one_piece_per_square. apply (bool_decide_unpack _). vm_compute. exact I.
Defined.

Lemma move_piece_elem b f t l y :
  one_piece_per_square b ->
  get_piece_at b f = Some l ->
  y ∈ pieces (fst (move_piece b f t)) <->
  y ∈ pieces b /\ get_piece_at b t <> Some y.
Proof.
  intros Hu Hl. destruct (move_piece_Some b f t l Hl) as (_ & -> & _).
  destruct (get_piece_at b t) as [x|] eqn:Hx.
  - split.
    + intros Hy. split; [by eapply remove_first_elem |].
      intros [= ->]. by apply (remove_first_NoDup y (pieces b)); [eapply NoDup_map_inv |].
    + intros [Hy Hne]. apply remove_first_elem_ne; [done | congruence].
  - split; [by intros ? | by intros [? _]].
Qed.

Lemma move_piece_mover_stays b f t l :
  one_piece_per_square b ->
  get_piece_at b f = Some l -> f <> t ->
  l ∈ pieces (fst (move_piece b f t)).
Proof.
  intros Hu Hl Hne. apply (move_piece_elem b f t l l Hu Hl).
  destruct (get_piece_at_Some _ _ _ Hl) as [Hin Hpos]. split; [done |].
  intros Ht. apply get_piece_at_Some in Ht as [_ Ht]. congruence.
Qed.

(** X7. After a successful move between two different squares of a board
    with one piece per square, the destination holds the moved piece, the
    source is empty, and every other square holds what it held before. *)
Theorem move_piece_lookup b f t l :
  one_piece_per_square b ->
  get_piece_at b f = Some l -> f <> t ->
  get_piece_at (fst (move_piece b f t)) t = Some l /\
  get_piece_at (fst (move_piece b f t)) f = None /\
  forall pos, pos <> f -> pos <> t ->
    get_piece_at (fst (move_piece b f t)) pos = get_piece_at b pos.
Proof.
  intros Hu Hl Hne.
  destruct (move_piece_Some b f t l Hl) as (_ & _ & Hobj).
  destruct (get_piece_at_Some _ _ _ Hl) as [Hlin Hlpos].
  pose proof (move_piece_unique_squares b f t Hu) as Hu'.
  split; [|split].
  - apply (get_piece_at_iff _ _ _ Hu'). split; [by apply move_piece_mover_stays |].
    rewrite Hobj. by destruct (decide (l = l)).
  - apply get_piece_at_None. intros y Hy. rewrite Hobj.
    destruct (decide (y = l)) as [-> | Hyl]; [simpl; congruence |].
    apply (move_piece_elem b f t l y Hu Hl) in Hy as [Hy _].
    intros Hpos. apply Hyl.
    pose proof (proj2 (get_piece_at_iff b f y Hu) (conj Hy Hpos)). congruence.
  - intros pos Hpf Hpt.
    destruct (get_piece_at b pos) as [y|] eqn:Hy.
    + apply (get_piece_at_iff _ _ _ Hu').
      apply (get_piece_at_iff _ _ _ Hu) in Hy as [Hy Hpos].
      assert (y <> l) as Hyl by congruence.
      split.
      * apply (move_piece_elem b f t l y Hu Hl). split; [done |].
        intros Ht. apply get_piece_at_Some in Ht as [_ Ht]. congruence.
      * rewrite Hobj. by destruct (decide (y = l)).
    + apply get_piece_at_None. intros y Hy'. rewrite Hobj.
      destruct (decide (y = l)) as [-> | Hyl]; [simpl; congruence |].
      apply (move_piece_elem b f t l y Hu Hl) in Hy' as [Hy' _].
      by apply (proj1 (get_piece_at_None b pos) Hy).
Qed.

(** The move e2-e4 on the starting position. *)
Lemma move_piece_lookup_witness :
  get_piece_at (fst (move_piece ChessBoard_init "e2" "e4")) "e4" = Some 4%nat /\
  get_piece_at (fst (move_piece ChessBoard_init "e2" "e4")) "e2" = None /\
  forall pos, pos <> "e2" -> pos <> "e4" ->
    get_piece_at (fst (move_piece ChessBoard_init "e2" "e4")) pos =
    get_piece_at ChessBoard_init pos.
Proof.
  apply (move_piece_lookup ChessBoard_init "e2" "e4" 4%nat).
  - unfold one_piece_per_square. apply (bool_decide_unpack _). vm_compute. exact I.
  - vm_compute. reflexivity.
  - discriminate.
Defined.

Lemma move_piece_pieces_subset b f t y :
  y ∈ pieces (fst (move_piece b f t)) -> y ∈ pieces b.
Proof.
  destruct (get_piece_at b f) as [l|] eqn:Hl.
  - destruct (move_piece_Some b f t l Hl) as (_ & -> & _).
    destruct (get_piece_at b t); [apply remove_first_elem | done].
  - unfold move_piece. by rewrite Hl.
Qed.

Lemma move_piece_placed b f t :
  placed b -> is_valid_position t = true -> placed (fst (move_piece b f t)).
Proof.
  unfold placed. rewrite !Forall_forall. intros Hp Ht y Hy.
  pose proof (move_piece_pieces_subset b f t y Hy) as Hin.
  destruct (get_piece_at b f) as [l|] eqn:Hl.
  - destruct (move_piece_Some b f t l Hl) as (_ & _ & ->).
    destruct (decide (y = l)); [done | by apply Hp].
  - unfold move_piece. rewrite Hl. by apply Hp.
Qed.

Lemma move_piece_valued b f t :
  valued b -> valued (fst (move_piece b f t)).
Proof.
  unfold valued. rewrite !Forall_forall. intros Hv y Hy.
  pose proof (move_piece_pieces_subset b f t y Hy) as Hin.
  destruct (get_piece_at b f) as [l|] eqn:Hl.
  - destruct (move_piece_Some b f t l Hl) as (_ & _ & ->).
    destruct (get_piece_at_Some _ _ _ Hl) as [Hlin _].
    destruct (decide (y = l)) as [-> | Hne]; [simpl | ]; by apply Hv.
  - unfold move_piece. rewrite Hl. by apply Hv.
Qed.

(** X8. [move_piece] onto a square of the board keeps every piece on a
    square of the board and leaves every piece the value of its type. *)
Theorem move_piece_keeps_placed_and_valued b f t :
  placed b -> valued b -> is_valid_position t = true ->
  placed (fst (move_piece b f t)) /\ valued (fst (move_piece b f t)).
Proof.
  intros Hp Hv Ht. split; [by apply move_piece_placed | by apply move_piece_valued].
Qed.

(** The move e2-e4 on the starting position. *)
Lemma move_piece_keeps_placed_and_valued_witness :
  placed (fst (move_piece ChessBoard_init "e2" "e4")) /\
  valued (fst (move_piece ChessBoard_init "e2" "e4")).
Proof.
  apply (move_piece_keeps_placed_and_valued ChessBoard_init "e2" "e4").
  - unfold placed. apply (bool_decide_unpack _). vm_compute. exact I.
  - unfold valued. apply (bool_decide_unpack _). vm_compute. exact I.
  - vm_compute. reflexivity.
Defined.

(** ** get_move_evaluation on any board *)

Lemma evaluate_returns b : placed b -> exists e, evaluate b = OK e.
Proof.
  intros Hp. unfold evaluate.
  destruct (_evaluate_activity_total b Hp) as [a ->].
  destruct (_evaluate_pawns_total b Hp) as [p ->].
  destruct (_evaluate_king_safety_total b Hp) as [k ->].
  by eexists.
Qed.

Lemma get_move_evaluation_unfold b f t e :
  evaluate (fst (move_piece b f t)) = OK e ->
  get_move_evaluation b f t =
    let b1 := fst (move_piece b f t) in
    match get_piece_at b1 t with
    | None => (b1, Raise ValueError)
    | Some x =>
        let b2 := with_pieces (remove_first x (pieces b1)) b1 in
        match get_piece_at b f with
        | None => (b2, Raise AttributeError)
        | Some original =>
            let b3 := with_heap
              (<[original := set_position f (obj b2 original)]> (heap b2)) b2 in
            let b4 := with_pieces (pieces b3 ++ [original]) b3 in
            let b5 :=
              match get_piece_at b t with
              | Some c => with_pieces (pieces b4 ++ [c]) b4
              | None => b4
              end in
            (b5, OK {| move_token := token f t;
                       evaluation := e;
                       captured := (fun c => get_symbol (obj b5 c)) <$> get_piece_at b t |})
        end
    end.
Proof. intros He. unfold get_move_evaluation. by rewrite He. Qed.

Lemma moved_back f t p :
  position p = f ->
  set_position f (moved t p) = set_move_count (move_count p + 1) p.
Proof. intros <-. by destruct p. Qed.

Lemma get_move_evaluation_normal b f t l :
  placed b -> one_piece_per_square b ->
  get_piece_at b f = Some l -> f <> t -> is_valid_position t = true ->
  exists r,
    snd (get_move_evaluation b f t) = OK r /\
    pieces (fst (get_move_evaluation b f t)) =
      remove_first l (pieces (fst (move_piece b f t))) ++ [l]
      ++ match get_piece_at b t with Some c => [c] | None => [] end /\
    forall y,
      obj (fst (get_move_evaluation b f t)) y =
        if decide (y = l)
        then set_move_count (move_count (obj b l) + 1) (obj b l)
        else obj b y.
Proof.
  intros Hp Hu Hl Hne Ht.
  destruct (evaluate_returns _ (move_piece_placed b f t Hp Ht)) as [e He].
  rewrite (get_move_evaluation_unfold b f t e He). cbv zeta.
  destruct (move_piece_Some b f t l Hl) as (_ & _ & Hobj).
  destruct (get_piece_at_Some _ _ _ Hl) as [Hlin Hlpos].
  pose proof (move_piece_unique_squares b f t Hu) as Hu'.
  assert (get_piece_at (fst (move_piece b f t)) t = Some l) as ->.
  { apply (get_piece_at_iff _ _ _ Hu'). split; [by apply move_piece_mover_stays |].
    rewrite Hobj. by destruct (decide (l = l)). }
  rewrite Hl. eexists. split; [reflexivity |]. split.
  - destruct (get_piece_at b t); cbn; by rewrite <- ?app_assoc.
  - intros y.
    assert (forall B : ChessBoard,
              heap B = <[l := set_position f (obj (fst (move_piece b f t)) l)]>
                         (heap (fst (move_piece b f t))) ->
              obj B y =
                if decide (y = l)
                then set_move_count (move_count (obj b l) + 1) (obj b l)
                else obj b y) as Hfinal.
    { intros B HB. unfold obj at 1. rewrite HB.
      destruct (decide (y = l)) as [-> | Hyl].
      - rewrite lookup_total_insert_eq, Hobj, decide_True by done.
        by apply moved_back.
      - rewrite lookup_total_insert_ne by done.
        fold (obj (fst (move_piece b f t)) y). rewrite Hobj.
        by rewrite decide_False. }
    cbn [fst]. destruct (get_piece_at b t); apply Hfinal; reflexivity.
Qed.

(** X9. On a board whose pieces stand on squares of the board, one per
    square, [get_move_evaluation] from the square of a piece to another
    square of the board returns and restores the board, whether or not
    the move captures: the pieces are those of before (in another order),
    each of the same type and colour on the same square with the same
    value, and only the move count of the moved piece has changed, by
    one. *)
Theorem get_move_evaluation_restores b f t l :
  placed b -> one_piece_per_square b ->
  get_piece_at b f = Some l -> f <> t -> is_valid_position t = true ->
  returns (snd (get_move_evaluation b f t)) /\
  same_but_move_count b (fst (get_move_evaluation b f t)) l.
Proof.
  intros Hp Hu Hl Hne Ht.
  destruct (get_move_evaluation_normal b f t l Hp Hu Hl Hne Ht)
    as (r & Hr & Hps & Hobj).
  split; [by rewrite Hr |].
  pose proof (move_piece_mover_stays b f t l Hu Hl Hne) as Hl1.
  destruct (move_piece_Some b f t l Hl) as (_ & Hps1 & _).
  unfold same_but_move_count. split.
  - rewrite Hps. rewrite Hps1 in *.
    destruct (get_piece_at b t) as [x|] eqn:Hx.
    + destruct (get_piece_at_Some _ _ _ Hx) as [Hxin _].
      rewrite (remove_first_Permutation x (pieces b) Hxin) at 2.
      rewrite (remove_first_Permutation l (remove_first x (pieces b)) Hl1) at 2.
      rewrite Permutation_app_comm. simpl. apply perm_swap.
    + rewrite (remove_first_Permutation l (pieces b) Hl1) at 2.
      rewrite app_nil_r. by rewrite Permutation_app_comm.
  - apply Forall_forall. intros y Hy. rewrite Hobj.
    destruct (decide (y = l)) as [-> | Hyl].
    + rewrite bool_decide_eq_true_2 by done. by destruct (obj b l).
    + rewrite bool_decide_eq_false_2 by done. repeat split; lia.
Qed.

(** The capture e4xd5 after 1. e4 d5. *)
Lemma get_move_evaluation_restores_witness :
  returns (snd (get_move_evaluation after_e4_d5 "e4" "d5")) /\
  same_but_move_count after_e4_d5
    (fst (get_move_evaluation after_e4_d5 "e4" "d5")) 4%nat.
Proof.
  apply (get_move_evaluation_restores after_e4_d5 "e4" "d5" 4%nat).
  - unfold placed. apply (bool_decide_unpack _). vm_compute. exact I.
  - unfold one_piece_per_square. apply (bool_decide_unpack _). vm_compute. exact I.
  - vm_compute. reflexivity.
  - discriminate.
  - vm_compute. reflexivity.
Defined.



(** X11. On a board whose pieces stand on squares of the board, one per
    square, [get_move_evaluation] from the square of a piece to the same
    square raises [ValueError] and loses the piece: the board is left as
    [move_piece] left it, without the piece. *)
Theorem get_move_evaluation_same_square b p l :
  placed b -> one_piece_per_square b -> get_piece_at b p = Some l ->
  get_move_evaluation b p p = (fst (move_piece b p p), Raise ValueError) /\
  l ∉ pieces (fst (get_move_evaluation b p p)).
Proof.
  intros Hp Hu Hl.
  destruct (get_piece_at_Some _ _ _ Hl) as [Hlin Hlpos].
  destruct (move_piece_Some b p p l Hl) as (_ & Hps & Hobj).
  rewrite Hl in Hps.
  assert (l ∉ pieces (fst (move_piece b p p))) as Hgone.
  { rewrite Hps. apply remove_first_NoDup. by eapply NoDup_map_inv. }
  assert (is_valid_position p = true) as Hv.
  { unfold placed in Hp. rewrite Forall_forall in Hp. rewrite <- Hlpos. by apply Hp. }
  destruct (evaluate_returns _ (move_piece_placed b p p Hp Hv)) as [e He].
  assert (get_piece_at (fst (move_piece b p p)) p = None) as Hnone.
  { apply get_piece_at_None. intros y Hy. rewrite Hobj.
    destruct (decide (y = l)) as [-> | Hyl]; [done |].
    intros Hpos. apply Hyl.
    pose proof (move_piece_pieces_subset b p p y Hy) as Hin.
    pose proof (proj2 (get_piece_at_iff b p y Hu) (conj Hin Hpos)). congruence. }
  assert (get_move_evaluation b p p = (fst (move_piece b p p), Raise ValueError)) as Heq.
  { rewrite (get_move_evaluation_unfold b p p e He). cbv zeta. by rewrite Hnone. }
  split; [done |]. by rewrite Heq.
Qed.

(** The e-pawn of the starting position, evaluated from e2 to e2. *)
Lemma get_move_evaluation_same_square_witness :
  get_move_evaluation ChessBoard_init "e2" "e2" =
    (fst (move_piece ChessBoard_init "e2" "e2"), Raise ValueError) /\
  4%nat ∉ pieces (fst (get_move_evaluation ChessBoard_init "e2" "e2")).
Proof.
  apply (get_move_evaluation_same_square ChessBoard_init "e2" 4%nat).
  - unfold placed. apply (bool_decide_unpack _). vm_compute. exact I.
  - unfold one_piece_per_square. apply (bool_decide_unpack _). vm_compute. exact I.
  - vm_compute. reflexivity.
Defined.

(** ** Material *)

Lemma sum_values_shift b (a : Z) (ps : list loc) :
  foldl (fun acc l => acc + value (obj b l)) a ps =
  a + foldl (fun acc l => acc + value (obj b l)) 0 ps.
Proof.
  revert a. induction ps as [|l ps IH]; intros a; simpl; [lia |].
  rewrite IH, (IH (0 + _)). lia.
Qed.

Lemma material_fold_by_color b ps w bl :
  foldl (fun '(w, bl) l =>
           if bool_decide (color (obj b l) = WHITE)
           then (w + value (obj b l) * 100, bl)
           else (w, bl + value (obj b l) * 100))
        (w, bl) ps =
  (w + 100 * foldl (fun acc l => acc + value (obj b l)) 0
               (List.filter (fun l => bool_decide (color (obj b l) = WHITE)) ps),
   bl + 100 * foldl (fun acc l => acc + value (obj b l)) 0
                (List.filter (fun l => bool_decide (color (obj b l) = BLACK)) ps)).
Proof.
  revert w bl. induction ps as [|l ps IH]; intros w bl; simpl.
  - f_equal; lia.
  - destruct (color (obj b l)) eqn:Hc; simpl; rewrite IH; simpl;
      rewrite (sum_values_shift b (0 + _)); f_equal; lia.
Qed.

(** X12. The material score of the evaluator is the [centipawns] entry of
    [calculate_material_balance], and its [advantage_side] names the side
    with the greater sum of piece values, or says "equal". *)
Theorem material_balance_agrees b :
  _evaluate_material b = centipawns (calculate_material_balance b) /\
  (advantage_side (calculate_material_balance b) = "white" <->
   material_of b BLACK < material_of b WHITE) /\
  (advantage_side (calculate_material_balance b) = "black" <->
   material_of b WHITE < material_of b BLACK) /\
  (advantage_side (calculate_material_balance b) = "equal" <->
   material_of b WHITE = material_of b BLACK).
Proof.
  split.
  - unfold _evaluate_material. rewrite material_fold_by_color.
    unfold calculate_material_balance, material_of, get_pieces_by_color. simpl. lia.
  - unfold calculate_material_balance. simpl.
    destruct (0 <? _) eqn:H1; [|destruct (_ <? 0) eqn:H2];
      rewrite ?Z.ltb_lt, ?Z.ltb_ge in *; repeat split; intros; try done; lia.
Qed.

(** ** FEN *)

Lemma row_width_app (r s : string) :
  row_width (r ++ s)%string = row_width r + row_width s.
Proof. induction r as [|c r IH]; simpl; [done |]. rewrite IH. lia. Qed.

Lemma row_width_count (n : Z) : 1 <= n <= 9 -> row_width (str n) = n.
Proof.
  intros H.
  assert (In n [1; 2; 3; 4; 5; 6; 7; 8; 9]) as Hn by (simpl; lia).
  simpl in Hn. repeat (destruct Hn as [<- | Hn]; [by vm_compute |]). done.
Qed.

Lemma row_width_piece (t : PieceType) (c : Color) :
  row_width (String (if bool_decide (c = BLACK) then lower (piece_char t)
                     else piece_char t) "") = 1.
Proof. by destruct t, c. Qed.

Lemma fen_row_loop_width b rank files fen_row empty_count :
  0 <= empty_count -> empty_count + Z.of_nat (length files) <= 9 ->
  row_width (fst (fen_row_loop b rank files fen_row empty_count))
  + snd (fen_row_loop b rank files fen_row empty_count)
  = row_width fen_row + empty_count + Z.of_nat (length files) /\
  0 <= snd (fen_row_loop b rank files fen_row empty_count)
    <= empty_count + Z.of_nat (length files).
Proof.
  revert fen_row empty_count.
  induction files as [|file rest IH]; intros fen_row empty_count H0 H9.
  - simpl. lia.
  - cbn [fen_row_loop]. cbn [length] in *.
    destruct (get_piece_at b (label file rank)) as [l|].
    + destruct (0 <? empty_count) eqn:He.
      * apply Z.ltb_lt in He.
        destruct (IH ((fen_row ++ str empty_count)
                      ++ String (if bool_decide (color (obj b l) = BLACK)
                                 then lower (piece_char (type (obj b l)))
                                 else piece_char (type (obj b l))) "")%string 0)
          as [Hw Hb]; [lia | lia |].
        rewrite !row_width_app, row_width_piece, row_width_count in Hw by lia.
        lia.
      * apply Z.ltb_ge in He.
        destruct (IH (fen_row
                      ++ String (if bool_decide (color (obj b l) = BLACK)
                                 then lower (piece_char (type (obj b l)))
                                 else piece_char (type (obj b l))) "")%string
                     empty_count) as [Hw Hb]; [lia | lia |].
        rewrite row_width_app, row_width_piece in Hw. lia.
    + destruct (IH fen_row (empty_count + 1)) as [Hw Hb]; lia.
Qed.

Lemma fen_row_of_width b rank : row_width (fen_row_of b rank) = 8.
Proof.
  unfold fen_row_of.
  destruct (fen_row_loop_width b rank FILES "" 0) as [Hw Hb]; [lia | simpl; lia |].
  destruct (fen_row_loop b rank FILES "" 0) as [fen_row empty_count].
  cbn [fst snd] in *. change (Z.of_nat (length FILES)) with 8 in *.
  change (row_width "") with 0 in Hw.
  destruct (0 <? empty_count) eqn:He.
  - apply Z.ltb_lt in He. rewrite row_width_app, row_width_count; lia.
  - apply Z.ltb_ge in He. lia.
Qed.

(** X13. For every board [get_position_fen] joins exactly eight rows with
    "/", and every row describes exactly eight squares: its digits and its
    piece letters add up to 8. *)
Theorem fen_has_eight_rows_of_eight b :
  get_position_fen b = String.concat "/" (fen_rows b) /\
  length (fen_rows b) = 8%nat /\
  Forall (fun row => row_width row = 8) (fen_rows b).
Proof.
  split; [done |]. split; [done |].
  unfold fen_rows. apply Forall_forall. intros row Hrow.
  apply list_elem_of_In, List.in_map_iff in Hrow as (rank & <- & _).
  apply fen_row_of_width.
Qed.

(** ** reset_board *)

Lemma fresh_loc_above (h : gmap loc Piece) l p :
  h !! l = Some p -> (l < fresh_loc h)%nat.
Proof.
  unfold fresh_loc. revert l p.
  apply (map_fold_weak_ind
           (fun (r : nat) (m : gmap loc Piece) =>
              forall l p, m !! l = Some p -> (l < r)%nat)).
  - intros l p H. by rewrite lookup_empty in H.
  - intros i x m r Hi IH l p Hl.
    destruct (decide (l = i)) as [-> | Hne]; [lia |].
    rewrite lookup_insert_ne in Hl by done. specialize (IH l p Hl). lia.
Qed.

Lemma fresh_loc_free (h : gmap loc Piece) : h !! fresh_loc h = None.
Proof.
  destruct (h !! fresh_loc h) as [p|] eqn:H; [|done].
  apply fresh_loc_above in H. lia.
Qed.

(** One allocation: the new piece goes to the end of the layout, the
    pieces that were there are not touched, and the store only grows. *)
Lemma append_new_piece_step h0 b t c pos L :
  allocated b /\ layout b = L /\ h0 ⊆ heap b /\
    move_history b = [] /\ white_king_moved b = false /\
    black_king_moved b = false /\ white_rook_a1_moved b = false /\
    white_rook_h1_moved b = false /\ black_rook_a8_moved b = false /\
    black_rook_h8_moved b = false ->
  allocated (append_new_piece t c pos b) /\
  layout (append_new_piece t c pos b) = L ++ [Piece_init t c pos] /\
  h0 ⊆ heap (append_new_piece t c pos b) /\
    move_history (append_new_piece t c pos b) = [] /\
    white_king_moved (append_new_piece t c pos b) = false /\
    black_king_moved (append_new_piece t c pos b) = false /\
    white_rook_a1_moved (append_new_piece t c pos b) = false /\
    white_rook_h1_moved (append_new_piece t c pos b) = false /\
    black_rook_a8_moved (append_new_piece t c pos b) = false /\
    black_rook_h8_moved (append_new_piece t c pos b) = false.
Proof.
  intros (Ha & HL & Hsub & Hrest).
  pose proof (fresh_loc_free (heap b)) as Hfree.
  unfold allocated, layout, append_new_piece in *. cbn.
  split; [|split; [|split; [|exact Hrest]]].
  - apply Forall_app. split.
    + eapply Forall_impl; [exact Ha |]. intros y [p Hy]. cbn in *.
      exists p. rewrite lookup_insert_ne; [done |].
      intros <-. congruence.
    + constructor; [|constructor]. cbn. rewrite lookup_insert_eq. by eexists.
  - rewrite List.map_app. cbn. f_equal.
    + rewrite <- HL. apply List.map_ext_in. intros y Hy.
      rewrite Forall_forall in Ha. apply list_elem_of_In in Hy.
      destruct (Ha y Hy) as [p Hp]. unfold obj. cbn.
      rewrite lookup_total_insert_ne; [done |]. intros <-. congruence.
    + unfold obj. cbn. by rewrite lookup_total_insert_eq.
  - etransitivity; [exact Hsub |]. by apply insert_subseteq.
Qed.

Lemma layout_lookup b b' pos :
  layout b = layout b' ->
  obj b <$> get_piece_at b pos = obj b' <$> get_piece_at b' pos.
Proof.
  unfold layout, get_piece_at.
  generalize (pieces b) (pieces b'). intros ps.
  induction ps as [|y ys IH]; intros [|y' ys']; simpl; try done.
  intros [= Hy Hys]. rewrite Hy.
  destruct (String.eqb _ _); [simpl; by rewrite Hy | by apply IH].
Qed.

Lemma fen_row_loop_layout b b' rank files fen_row empty_count :
  layout b = layout b' ->
  fen_row_loop b rank files fen_row empty_count =
  fen_row_loop b' rank files fen_row empty_count.
Proof.
  intros HL. revert fen_row empty_count.
  induction files as [|file rest IH]; intros fen_row empty_count; simpl; [done |].
  pose proof (layout_lookup b b' (label file rank) HL) as Hlk.
  destruct (get_piece_at b (label file rank)) as [l|],
           (get_piece_at b' (label file rank)) as [l'|]; simpl in Hlk; try done.
  injection Hlk as ->. destruct (0 <? empty_count); apply IH.
Qed.

Lemma get_position_fen_layout b b' :
  layout b = layout b' -> get_position_fen b = get_position_fen b'.
Proof.
  intros HL. unfold get_position_fen, fen_rows. f_equal.
  apply List.map_ext. intros rank. unfold fen_row_of.
  by rewrite (fen_row_loop_layout b b' rank FILES "" 0 HL).
Qed.

Lemma reset_board_state b :
  allocated (reset_board b) /\
  layout (reset_board b) = layout ChessBoard_init /\
  heap b ⊆ heap (reset_board b) /\
  move_history (reset_board b) = [] /\
  white_king_moved (reset_board b) = false /\
  black_king_moved (reset_board b) = false /\
  white_rook_a1_moved (reset_board b) = false /\
  white_rook_h1_moved (reset_board b) = false /\
  black_rook_a8_moved (reset_board b) = false /\
  black_rook_h8_moved (reset_board b) = false.
Proof.
  assert (layout ChessBoard_init =
    [] ++ [Piece_init PAWN WHITE "a2"] ++ [Piece_init PAWN WHITE "b2"]
        ++ [Piece_init PAWN WHITE "c2"] ++ [Piece_init PAWN WHITE "d2"]
        ++ [Piece_init PAWN WHITE "e2"] ++ [Piece_init PAWN WHITE "f2"]
        ++ [Piece_init PAWN WHITE "g2"] ++ [Piece_init PAWN WHITE "h2"]
        ++ [Piece_init ROOK WHITE "a1"] ++ [Piece_init KNIGHT WHITE "b1"]
        ++ [Piece_init BISHOP WHITE "c1"] ++ [Piece_init QUEEN WHITE "d1"]
        ++ [Piece_init KING WHITE "e1"] ++ [Piece_init BISHOP WHITE "f1"]
        ++ [Piece_init KNIGHT WHITE "g1"] ++ [Piece_init ROOK WHITE "h1"]
        ++ [Piece_init PAWN BLACK "a7"] ++ [Piece_init PAWN BLACK "b7"]
        ++ [Piece_init PAWN BLACK "c7"] ++ [Piece_init PAWN BLACK "d7"]
        ++ [Piece_init PAWN BLACK "e7"] ++ [Piece_init PAWN BLACK "f7"]
        ++ [Piece_init PAWN BLACK "g7"] ++ [Piece_init PAWN BLACK "h7"]
        ++ [Piece_init ROOK BLACK "a8"] ++ [Piece_init KNIGHT BLACK "b8"]
        ++ [Piece_init BISHOP BLACK "c8"] ++ [Piece_init QUEEN BLACK "d8"]
        ++ [Piece_init KING BLACK "e8"] ++ [Piece_init BISHOP BLACK "f8"]
        ++ [Piece_init KNIGHT BLACK "g8"] ++ [Piece_init ROOK BLACK "h8"]) as ->
    by (vm_compute; reflexivity).
  unfold reset_board, setup_starting_position, FILES. cbn [foldl].
  rewrite !app_assoc.
  do 32 apply append_new_piece_step.
  repeat split; try reflexivity. constructor.
Qed.

(** X14. [reset_board] on any board gives the starting position: the 32
    pieces of [ChessBoard()] with their squares, values and zero move
    counts, in the same order, an empty history and cleared flags, hence
    the FEN of the starting position.  The pieces are new objects: every
    piece object that existed before keeps its attributes. *)
Theorem reset_board_restores_start b :
  layout (reset_board b) = layout ChessBoard_init /\
  get_position_fen (reset_board b) = starting_fen /\
  move_history (reset_board b) = [] /\
  white_king_moved (reset_board b) = false /\
  black_king_moved (reset_board b) = false /\
  white_rook_a1_moved (reset_board b) = false /\
  white_rook_h1_moved (reset_board b) = false /\
  black_rook_a8_moved (reset_board b) = false /\
  black_rook_h8_moved (reset_board b) = false /\
  forall l p, heap b !! l = Some p -> heap (reset_board b) !! l = Some p.
Proof.
  destruct (reset_board_state b) as (_ & HL & Hsub & Hh & H1 & H2 & H3 & H4 & H5 & H6).
  repeat split; try assumption.
  - rewrite (get_position_fen_layout _ _ HL). by vm_compute.
  - intros l p Hl. by eapply lookup_weaken.
Qed.

(** ** Pawn structure *)

Lemma doubled_penalty_excess (files : gmap ascii Z) :
  map_Forall (fun _ count => 1 <= count) files ->
  doubled_penalty files = -20 * excess files.
Proof.
  unfold doubled_penalty, excess.
  induction files as [|k c m Hk IH] using map_ind; intros Hall.
  - by rewrite !map_fold_empty.
  - rewrite !map_fold_insert_L; [| intros; lia | done | | done].
    + rewrite IH by (eapply map_Forall_insert_1_2; eauto).
      pose proof (map_Forall_insert_1_1 _ _ _ _ Hall) as Hc. simpl in Hc.
      destruct (1 <? c) eqn:H1; [lia |]. apply Z.ltb_ge in H1. lia.
    + intros j1 j2 z1 z2 y _ _ _.
      destruct (1 <? z1), (1 <? z2); lia.
Qed.

Lemma count_step (files : gmap ascii Z) (k : ascii) :
  map_Forall (fun _ count => 1 <= count) files ->
  map_Forall (fun _ count => 1 <= count)
    (<[k := default 0 (files !! k) + 1]> files) /\
  excess (<[k := default 0 (files !! k) + 1]> files)
    + Z.of_nat (size (<[k := default 0 (files !! k) + 1]> files))
  = excess files + Z.of_nat (size files) + 1 /\
  dom (<[k := default 0 (files !! k) + 1]> files) = {[k]} ∪ dom files.
Proof.
  intros Hall. split; [|split; [|apply dom_insert_L]].
  - apply map_Forall_insert_2; [|done].
    destruct (files !! k) as [c|] eqn:Hk; simpl; [|lia].
    specialize (Hall k c Hk). simpl in Hall. lia.
  - unfold excess. destruct (files !! k) as [c|] eqn:Hk; simpl.
    + rewrite map_size_insert_Some by done.
      rewrite (map_fold_delete_L _ 0 k c files) by (intros; lia || done).
      rewrite <- (insert_delete_eq files).
      rewrite map_fold_insert_L; [lia | intros; lia | apply lookup_delete_eq].
    + rewrite map_size_insert_None by done.
      rewrite map_fold_insert_L; [lia | intros; lia | done].
Qed.

Lemma count_files_spec b pawns files :
  all_valid b pawns ->
  map_Forall (fun _ count => 1 <= count) files ->
  exists m,
    count_files b pawns files = OK m /\
    map_Forall (fun _ count => 1 <= count) m /\
    excess m + Z.of_nat (size m)
      = excess files + Z.of_nat (size files) + Z.of_nat (length pawns) /\
    dom m = list_to_set (List.map (fun l => file_of (obj b l)) pawns) ∪ dom files.
Proof.
  intros H. revert files. induction H as [|l ps Hl _ IH]; intros files Hall.
  - exists files. simpl. repeat split; [done | lia |].
    by rewrite (left_id_L ∅ (∪)).
  - cbn [count_files].
    assert (index (position (obj b l)) 0 = OK (file_of (obj b l))) as ->.
    { unfold file_of. by destruct (position (obj b l)). }
    destruct (count_step files (file_of (obj b l)) Hall) as (Hall' & Hex & Hdom).
    destruct (IH _ Hall') as (m & Hm & Hallm & Hexm & Hdomm).
    exists m. split; [exact Hm |]. split; [done |]. split.
    + rewrite Hexm, Hex. cbn [length]. lia.
    + rewrite Hdomm, Hdom. cbn [List.map]. rewrite list_to_set_cons.
      rewrite (assoc_L (∪)). f_equal. apply (comm_L (∪)).
Qed.

Lemma pawn_score b c :
  placed b ->
  exists m,
    count_files b (get_pieces_by_type b PAWN (Some c)) ∅ = OK m /\
    doubled_penalty m = -20 * doubled_pawns b c.
Proof.
  intros Hp.
  destruct (count_files_spec b (get_pieces_by_type b PAWN (Some c)) ∅)
    as (m & Hm & Hall & Hex & Hdom);
    [by apply placed_by_type | apply map_Forall_empty |].
  exists m. split; [done |].
  rewrite (doubled_penalty_excess m Hall). unfold doubled_pawns. cbv zeta.
  rewrite dom_empty_L, (right_id_L ∅ (∪)) in Hdom. rewrite <- Hdom, size_dom.
  unfold excess at 2 in Hex. rewrite map_fold_empty, map_size_empty in Hex. lia.
Qed.

(** X15. On a board whose pieces stand on squares of the board the pawn
    structure score is 20 times the number of doubled Black pawns less 20
    times the number of doubled White pawns, where a colour has as many
    doubled pawns as it has pawns beyond the first on their file. *)
Theorem pawn_structure_counts_doubled_pawns b :
  placed b ->
  _evaluate_pawns b = OK (20 * doubled_pawns b BLACK - 20 * doubled_pawns b WHITE).
Proof.
  intros Hp. unfold _evaluate_pawns.
  destruct (pawn_score b WHITE Hp) as (wf & -> & Hw).
  destruct (pawn_score b BLACK Hp) as (bf & -> & Hb).
  cbv beta iota delta [mbind Res_bind mret Res_ret]. f_equal. lia.
Qed.

(** The position after 1. e4 d5. *)
Lemma pawn_structure_counts_doubled_pawns_witness :
  _evaluate_pawns after_e4_d5 =
    OK (20 * doubled_pawns after_e4_d5 BLACK - 20 * doubled_pawns after_e4_d5 WHITE).
Proof.
  apply (pawn_structure_counts_doubled_pawns after_e4_d5).
  unfold placed. apply (bool_decide_unpack _). vm_compute. exact I.
Defined.

(** ** detect_weak_squares *)

Lemma get_pawn_moves_well_formed b l :
  is_valid_position (position (obj b l)) = true ->
  exists ms, get_pawn_moves b l = OK ms /\ Forall (well_formed_move b l) ms.
Proof.
  intros H. destruct (valid_pos_to_coords _ H) as (file & rank & Hc & _).
  unfold get_pawn_moves. rewrite Hc. eexists. split; [reflexivity |].
  apply Forall_app. split;
    [apply pawn_forward_well_formed | apply pawn_captures_well_formed].
Qed.

Lemma existsb_capture_onto (ms : list Move) (pos : string) :
  existsb (fun m => captures m && String.eqb (to_pos m) pos) ms = true <->
  exists m, m ∈ ms /\ captures m = true /\ to_pos m = pos.
Proof.
  rewrite List.existsb_exists. split.
  - intros (m & Hin & [Hc Hp]%andb_true_iff). exists m.
    split; [by apply list_elem_of_In |]. split; [done | by apply String.eqb_eq].
  - intros (m & Hin & Hc & Hp). exists m. split; [by apply list_elem_of_In |].
    apply andb_true_iff. split; [done | by apply String.eqb_eq].
Qed.

Lemma pawn_defends_spec b pos pawns defended :
  all_valid b pawns ->
  exists v,
    pawn_defends b pos pawns defended = OK v /\
    (v = true <->
     defended = true \/
     exists pawn ms m,
       pawn ∈ pawns /\ get_pawn_moves b pawn = OK ms /\
       m ∈ ms /\ captures m = true /\ to_pos m = pos).
Proof.
  intros H. revert defended.
  induction H as [|l ps Hl _ IH]; intros defended; cbn [pawn_defends].
  - exists defended. split; [done |]. split; [by left |].
    intros [? | (pawn & _ & _ & Hin & _)]; [done |]. by apply elem_of_nil in Hin.
  - destruct (get_pawn_moves_well_formed b l Hl) as (ms & Hms & _). rewrite Hms.
    cbv beta iota delta [mbind Res_bind].
    destruct (IH (defended
                  || existsb (fun m => captures m && String.eqb (to_pos m) pos) ms))
      as (v & Hv & Hiff).
    exists v. split; [done |]. rewrite Hiff, orb_true_iff, existsb_capture_onto.
    split.
    + intros [[Hd | (m & Hin & Hc & Hp)] | (pawn & ms' & m & Hin & Hrest)].
      * by left.
      * right. exists l, ms, m. split; [apply list_elem_of_here | done].
      * right. exists pawn, ms', m. split; [by apply list_elem_of_further | done].
    + intros [Hd | (pawn & ms' & m & Hin & Hms' & Hrest)]; [by left; left |].
      apply elem_of_cons in Hin as [-> | Hin].
      * left. right. rewrite Hms in Hms'. injection Hms' as <-. by exists m.
      * right. by exists pawn, ms', m.
Qed.

Lemma weak_loop_spec b c squares weak_squares :
  placed b ->
  exists ws,
    weak_loop b (get_pieces_by_type b PAWN (Some c)) squares weak_squares = OK ws /\
    forall pos,
      pos ∈ ws <->
      pos ∈ weak_squares \/ (pos ∈ squares /\ ~ pawn_covers b c pos).
Proof.
  intros Hp. pose proof (placed_by_type b PAWN (Some c) Hp) as Hall.
  revert weak_squares.
  induction squares as [|sq rest IH]; intros weak_squares; cbn [weak_loop].
  - exists weak_squares. split; [done |]. intros pos. split; [by left |].
    intros [? | [Hin _]]; [done |]. by apply elem_of_nil in Hin.
  - destruct (pawn_defends_spec b sq _ false Hall) as (v & -> & Hv).
    cbv beta iota delta [mbind Res_bind].
    assert (v = true <-> pawn_covers b c sq) as Hcov.
    { rewrite Hv. unfold pawn_covers. split; [by intros [? | ?] | by right]. }
    destruct v.
    + destruct (IH weak_squares) as (ws & Hws & Hiff). exists ws. split; [done |].
      intros pos. rewrite Hiff, elem_of_cons. split.
      * intros [? | [? ?]]; [by left | right; split; [by right | done]].
      * intros [? | [[-> | ?] Hn]]; [by left | | by right].
        destruct Hn. by apply Hcov.
    + destruct (IH (weak_squares ++ [sq])) as (ws & Hws & Hiff).
      exists ws. split; [done |].
      intros pos. rewrite Hiff, elem_of_app, list_elem_of_singleton, elem_of_cons.
      split.
      * intros [[? | ->] | [? ?]]; [by left | | right; split; [by right | done]].
        right. split; [by left |]. intros Hc. by apply Hcov in Hc.
      * intros [? | [[-> | ?] Hn]]; [by left; left | by left; right | by right].
Qed.

Lemma all_squares_valid pos :
  pos ∈ all_squares <-> is_valid_position pos = true.
Proof.
  split.
  - intros H. unfold all_squares, FILES, RANKS in H. cbn in H.
    repeat (apply elem_of_cons in H as [-> | H]; [by vm_compute |]).
    by apply elem_of_nil in H.
  - destruct pos as [|c0 [|c1 [|c2 rest]]]; simpl; try done.
    intros H. apply andb_true_iff in H as [Hf Hr].
    apply bool_decide_eq_true in Hf, Hr. unfold FILES, RANKS in *.
    repeat (apply elem_of_cons in Hf as [-> | Hf]);
      try (by apply elem_of_nil in Hf);
      repeat (apply elem_of_cons in Hr as [-> | Hr]);
      try (by apply elem_of_nil in Hr);
      apply (bool_decide_unpack _); by vm_compute.
Qed.

(** X16. On a board whose pieces stand on squares of the board
    [detect_weak_squares c] returns exactly the squares of the board onto
    which no pawn of colour [c] has a generated capture.  Captures are
    generated onto occupied squares only, so every empty square of the
    board is in the result. *)
Theorem weak_squares_are_the_uncovered_squares b c :
  placed b ->
  exists ws,
    detect_weak_squares b c = OK ws /\
    (forall pos,
       pos ∈ ws <-> is_valid_position pos = true /\ ~ pawn_covers b c pos) /\
    (forall pos,
       is_valid_position pos = true -> get_piece_at b pos = None -> pos ∈ ws).
Proof.
  intros Hp. unfold detect_weak_squares.
  destruct (weak_loop_spec b c all_squares [] Hp) as (ws & Hws & Hiff).
  exists ws. split; [exact Hws |].
  assert (forall pos,
            pos ∈ ws <-> is_valid_position pos = true /\ ~ pawn_covers b c pos)
    as Hchar.
  { intros pos. rewrite Hiff, all_squares_valid. split; [|by right].
    intros [Hin | ?]; [by apply elem_of_nil in Hin | done]. }
  split; [exact Hchar |].
  intros pos Hv Hempty. apply Hchar. split; [done |].
  intros (pawn & ms & m & Hin & Hms & Hm & Hc & Hpos).
  assert (is_valid_position (position (obj b pawn)) = true) as Hvp.
  { pose proof (placed_by_type b PAWN (Some c) Hp) as Hall.
    unfold all_valid in Hall. rewrite Forall_forall in Hall. by apply Hall. }
  destruct (get_pawn_moves_well_formed b pawn Hvp) as (ms' & Hms' & Hwf).
  rewrite Hms in Hms'. injection Hms' as <-.
  rewrite Forall_forall in Hwf. destruct (Hwf m Hm) as (_ & _ & _ & Hcap & _).
  apply Hcap in Hc. rewrite Hpos, Hempty in Hc. by destruct Hc.
Qed.

(** The weak squares of White after 1. e4 d5. *)
Lemma weak_squares_are_the_uncovered_squares_witness :
  exists ws,
    detect_weak_squares after_e4_d5 WHITE = OK ws /\
    (forall pos,
       pos ∈ ws <->
       is_valid_position pos = true /\ ~ pawn_covers after_e4_d5 WHITE pos) /\
    (forall pos,
       is_valid_position pos = true -> get_piece_at after_e4_d5 pos = None ->
       pos ∈ ws).
Proof.
  apply (weak_squares_are_the_uncovered_squares after_e4_d5 WHITE).
  unfold placed. apply (bool_decide_unpack _). vm_compute. exact I.
Defined.

(** ** Move.to_algebraic *)

(** X17. [to_algebraic] writes a knight move with the letter K, the first
    letter of "knight", which is also the letter of the king: a knight
    move and a king move that end on the same square, agree on the capture
    flag and on the check marks are written the same, starting with K. *)
Theorem to_algebraic_confuses_knight_and_king b m1 m2 :
  type (obj b (piece m1)) = KNIGHT -> type (obj b (piece m2)) = KING ->
  to_pos m1 = to_pos m2 -> captures m1 = captures m2 ->
  is_check m1 = is_check m2 -> is_checkmate m1 = is_checkmate m2 ->
  exists rest,
    to_algebraic b m1 = OK (String "K" rest) /\
    to_algebraic b m2 = OK (String "K" rest).
Proof.
  intros H1 H2 Hp Hc Hk Hm. unfold to_algebraic.
  rewrite H1, H2, Hp, Hc, Hk, Hm.
  rewrite !bool_decide_eq_true_2 by done.
  cbv beta iota delta [mbind Res_bind mret Res_ret index PieceType_value String.get].
  change (upper "k") with "K"%char.
  destruct (captures m2), (is_checkmate m2), (is_check m2); by eexists.
Qed.

(** After 1. e4 d5 the knight on g1 and the king on e1 can both go to
    e2. *)
Lemma to_algebraic_confuses_knight_and_king_witness :
  exists rest,
    to_algebraic after_e4_d5 (Move_init "g1" "e2" 14%nat false) = OK (String "K" rest) /\
    to_algebraic after_e4_d5 (Move_init "e1" "e2" 12%nat false) = OK (String "K" rest).
Proof.
  apply (to_algebraic_confuses_knight_and_king after_e4_d5
           (Move_init "g1" "e2" 14%nat false) (Move_init "e1" "e2" 12%nat false));
    vm_compute; reflexivity.
Defined.

(** ** parse_move *)

Lemma square_chars (c0 c1 : ascii) :
  is_valid_position (String c0 (String c1 "")) = true ->
  isspace c0 = false /\ isspace c1 = false /\
  Ascii.eqb c0 " " = false /\ Ascii.eqb c1 " " = false /\
  Ascii.eqb c0 "-" = false /\ Ascii.eqb c1 "-" = false.
Proof.
  simpl. intros H. apply andb_true_iff in H as [Hf Hr].
  apply bool_decide_eq_true in Hf, Hr. unfold FILES, RANKS in *.
  repeat (apply elem_of_cons in Hf as [-> | Hf]);
    try (by apply elem_of_nil in Hf);
    repeat (apply elem_of_cons in Hr as [-> | Hr]);
    try (by apply elem_of_nil in Hr); by vm_compute.
Qed.

(** X18. [parse_move] reads back the tokens that [move_piece] writes to
    the history: for two squares of the board it returns the pair of them
    from "from-to", and as well from "fromto" and from "from to". *)
Theorem parse_move_reads_tokens f t :
  is_valid_position f = true -> is_valid_position t = true ->
  parse_move (token f t) = Some (f, t) /\
  parse_move (f ++ t)%string = Some (f, t) /\
  parse_move (f ++ " " ++ t)%string = Some (f, t).
Proof.
  intros Hf Ht.
  destruct f as [|a [|b [|? ?]]]; try done.
  destruct t as [|c [|d [|? ?]]]; try done.
  destruct (square_chars a b Hf) as (Ha & Hb & Ha1 & Hb1 & Ha2 & Hb2).
  destruct (square_chars c d Ht) as (Hc & Hd & Hc1 & Hd1 & Hc2 & Hd2).
  unfold parse_move, token, strip.
  repeat split; simpl;
    rewrite ?Ha, ?Hb, ?Hc, ?Hd; simpl;
    rewrite ?Ha, ?Hb, ?Hc, ?Hd; simpl;
    rewrite ?Ha1, ?Hb1, ?Hc1, ?Hd1; simpl;
    rewrite ?Ha2, ?Hb2, ?Hc2, ?Hd2; reflexivity.
Qed.

(** The token of the move e2-e4. *)
Lemma parse_move_reads_tokens_witness :
  parse_move (token "e2" "e4") = Some ("e2", "e4") /\
  parse_move ("e2" ++ "e4")%string = Some ("e2", "e4") /\
  parse_move ("e2" ++ " " ++ "e4")%string = Some ("e2", "e4").
Proof. apply (parse_move_reads_tokens "e2" "e4"); vm_compute; reflexivity. Defined.

(** ** GameManager *)

Lemma legal_move_of_piece b c m :
  placed b ->
  m ∈ flat_map (moves_of b) (get_pieces_by_color b c) ->
  exists l,
    l ∈ pieces b /\ color (obj b l) = c /\ well_formed_move b l m.
Proof.
  intros Hp Hm. apply list_elem_of_In, List.in_flat_map in Hm as (l & Hl & Hm).
  apply list_elem_of_In, by_color_elem in Hl as [Hl Hc].
  exists l. split; [done |]. split; [done |].
  unfold placed in Hp. rewrite Forall_forall in Hp.
  pose proof (moves_of_well_formed b l (Hp l Hl)) as Hwf.
  rewrite Forall_forall in Hwf. apply Hwf. by apply list_elem_of_In.
Qed.

Lemma make_move_cases g f p :
  well_formed_game g ->
  (snd (GameManager.make_move g f p) = OK true /\
   accepted g (fst (GameManager.make_move g f p)) f p) \/
  (snd (GameManager.make_move g f p) = OK false /\
   refused g (fst (GameManager.make_move g f p)) f p).
Proof.
  intros (Hp & Hu & Hv). unfold GameManager.make_move, GameManager.get_legal_moves.
  rewrite (get_legal_moves_flat _ (GameManager.current_player g) Hp).
  destruct (existsb _ _) eqn:He; cbn [negb fst snd]; [left | right; by repeat split].
  split; [done |].
  apply List.existsb_exists in He as (m & Hm & [Hf Ht]%andb_true_iff).
  apply String.eqb_eq in Hf, Ht. apply list_elem_of_In in Hm.
  destruct (legal_move_of_piece _ _ m Hp Hm)
    as (l & Hl & Hc & Hfrom & _ & Hvalid & _ & Htarget & _).
  rewrite Hf in Hfrom. rewrite Ht in Hvalid, Htarget.
  assert (get_piece_at (GameManager.board g) f = Some l) as Hget
    by (rewrite Hfrom; by apply get_piece_at_unique).
  unfold accepted. cbn.
  split; [by exists l |]. repeat split; try done.
  - unfold placed in Hp. rewrite Forall_forall in Hp. rewrite Hfrom. by apply Hp.
  - intros ->. unfold target_ok in Htarget. by rewrite Hget in Htarget.
  - by destruct (GameManager.current_player g).
Qed.

(** X19. On a well-formed game [make_move] returns; it accepts a move only
    from the square of a piece of the player to move to another square of
    the board that holds no piece of that player, and then it moves the
    piece with [move_piece], passes the turn and records the token; when
    it refuses, board, turn and history stay as they are and one line is
    printed. *)
Theorem make_move_accepts_or_refuses g f p :
  well_formed_game g ->
  (snd (GameManager.make_move g f p) = OK true /\
   accepted g (fst (GameManager.make_move g f p)) f p) \/
  (snd (GameManager.make_move g f p) = OK false /\
   refused g (fst (GameManager.make_move g f p)) f p).
Proof. apply make_move_cases. Qed.

(** The first move of a game, e2-e4. *)
Lemma make_move_accepts_or_refuses_witness :
  (snd (GameManager.make_move GameManager.init "e2" "e4") = OK true /\
   accepted GameManager.init
     (fst (GameManager.make_move GameManager.init "e2" "e4")) "e2" "e4") \/
  (snd (GameManager.make_move GameManager.init "e2" "e4") = OK false /\
   refused GameManager.init
     (fst (GameManager.make_move GameManager.init "e2" "e4")) "e2" "e4").
Proof.
  apply (make_move_accepts_or_refuses GameManager.init "e2" "e4").
  unfold well_formed_game, placed, one_piece_per_square, valued.
  apply (bool_decide_unpack _). vm_compute. exact I.
Defined.

Lemma make_move_well_formed g f p :
  well_formed_game g -> well_formed_game (fst (GameManager.make_move g f p)).
Proof.
  intros Hg. pose proof Hg as (Hp & Hu & Hv).
  destruct (make_move_cases g f p Hg) as [[_ Ha] | [_ Hr]].
  - destruct Ha as (_ & _ & Hvp & _ & Hb & _). unfold well_formed_game.
    rewrite Hb. split; [by apply move_piece_placed |].
    split; [by apply move_piece_unique_squares | by apply move_piece_valued].
  - destruct Hr as (Hb & _). unfold well_formed_game. by rewrite Hb.
Qed.

Lemma make_move_in_step g f p :
  well_formed_game g -> history_in_step g ->
  history_in_step (fst (GameManager.make_move g f p)).
Proof.
  intros Hg [Hh Hc].
  destruct (make_move_cases g f p Hg) as [[_ Ha] | [_ Hr]].
  - destruct Ha as ((l & Hl & _) & _ & _ & _ & Hb & Hpl & Hhist & _).
    unfold history_in_step. rewrite Hb, Hpl, Hhist.
    rewrite (move_piece_history _ f p l Hl), Hh. split; [done |].
    rewrite Hc, Hh, length_app. cbn [length].
    rewrite Nat.add_1_r, Nat.even_succ, <- Nat.negb_even.
    by destruct (Nat.even (length (move_history (GameManager.board g)))).
  - destruct Hr as (Hb & Hpl & Hhist & _). unfold history_in_step.
    by rewrite Hb, Hpl, Hhist.
Qed.

Lemma play_keeps g moves :
  well_formed_game g -> history_in_step g ->
  snd (GameManager.play g moves) = OK tt /\
  well_formed_game (fst (GameManager.play g moves)) /\
  history_in_step (fst (GameManager.play g moves)).
Proof.
  revert g. induction moves as [|[f p] rest IH]; intros g Hg Hs; [done |].
  cbn [GameManager.play].
  pose proof (make_move_well_formed g f p Hg) as Hg'.
  pose proof (make_move_in_step g f p Hg Hs) as Hs'.
  destruct (make_move_cases g f p Hg) as [[Hr _] | [Hr _]];
    destruct (GameManager.make_move g f p) as [g' r]; cbn [fst snd] in *;
    subst r; by apply IH.
Qed.

(** X20. A well-formed game stays well-formed under [make_move], whatever
    squares it is called with: the pieces stay on squares of the board,
    one per square, each with the value of its type. *)
Theorem make_move_keeps_well_formed g f p :
  well_formed_game g -> well_formed_game (fst (GameManager.make_move g f p)).
Proof. apply make_move_well_formed. Qed.

(** The first move of a game, e2-e4. *)
Lemma make_move_keeps_well_formed_witness :
  well_formed_game (fst (GameManager.make_move GameManager.init "e2" "e4")).
Proof.
  apply (make_move_keeps_well_formed GameManager.init "e2" "e4").
  unfold well_formed_game, placed, one_piece_per_square, valued.
  apply (bool_decide_unpack _). vm_compute. exact I.
Defined.

Lemma init_well_formed : well_formed_game GameManager.init.
Proof.
  unfold well_formed_game, placed, one_piece_per_square, valued.
  apply (bool_decide_unpack _). vm_compute. exact I.
Qed.

(** X21. However a new game is played, through any sequence of [make_move]
    calls, legal or not, no call raises, the game stays well-formed, the
    history of the manager is the history of its board, White is to move
    exactly after an even number of accepted moves, and [evaluate]
    returns on the position reached. *)
Theorem play_never_raises moves :
  snd (GameManager.play GameManager.init moves) = OK tt /\
  well_formed_game (fst (GameManager.play GameManager.init moves)) /\
  history_in_step (fst (GameManager.play GameManager.init moves)) /\
  returns (evaluate (GameManager.board (fst (GameManager.play GameManager.init moves)))).
Proof.
  destruct (play_keeps GameManager.init moves init_well_formed) as (Hr & Hg & Hs);
    [done |].
  repeat split; try done; try apply Hg; try apply Hs.
  destruct Hg as (Hp & _). destruct (evaluate_returns _ Hp) as [e ->]. done.
Qed.

(** X22. The example named "french" of [_play_example] does not play the
    French Defence: of its four moves, e6-e6 and d2-d4 are refused, and a
    new game is left after 1. e4 d5 with White to move. *)
Theorem french_example_plays_e4_d5 :
  let g := fst (GameManager.play GameManager.init (GameManager.example_moves "french")) in
  GameManager.move_history g = ["e2-e4"; "d7-d5"] /\
  GameManager.stdout g = ["Invalid move: e6-e6"; "Invalid move: d2-d4"] /\
  GameManager.current_player g = WHITE /\
  get_position_fen (GameManager.board g)
    = "rnbqkbnr/ppp1pppp/8/3p4/4P3/8/PPPP1PPP/RNBQKBNR".
Proof. by vm_compute. Qed.

(** ** Attacks on a board with one piece per square *)

(** X23. On a board whose pieces stand on squares of the board, one per
    square, each with the value of its type, [detect_hanging_pieces c]
    lists exactly the pieces of colour [c] that are no king and whose
    square [is_attacked] holds of for the opponent: its test for a
    defender never succeeds. *)
Theorem hanging_pieces_are_the_attacked_pieces b c :
  placed b -> valued b -> one_piece_per_square b ->
  exists hs,
    detect_hanging_pieces b c = OK hs /\
    forall l,
      l ∈ List.map hanging_piece hs <->
      l ∈ get_pieces_by_color b c /\ type (obj b l) <> KING /\
      is_attacked b (position (obj b l)) (opposite c) = OK true.
Proof. apply detect_hanging_pieces_attacked. Qed.

(** The hanging pieces of Black after 1. e4 d5. *)
Lemma hanging_pieces_are_the_attacked_pieces_witness :
  exists hs,
    detect_hanging_pieces after_e4_d5 BLACK = OK hs /\
    forall l,
      l ∈ List.map hanging_piece hs <->
      l ∈ get_pieces_by_color after_e4_d5 BLACK /\
      type (obj after_e4_d5 l) <> KING /\
      is_attacked after_e4_d5 (position (obj after_e4_d5 l)) (opposite BLACK) = OK true.
Proof.
  apply (hanging_pieces_are_the_attacked_pieces after_e4_d5 BLACK).
  - unfold placed. apply (bool_decide_unpack _). vm_compute. exact I.
  - unfold valued. apply (bool_decide_unpack _). vm_compute. exact I.
  - unfold one_piece_per_square. apply (bool_decide_unpack _). vm_compute. exact I.
Defined.

(** X24. On a board whose pieces stand on squares of the board, one per
    square, [is_attacked] answers [False] for the square of a piece and
    the colour of that piece: a square that a side holds is never counted
    as reached by that side. *)
Theorem is_attacked_not_by_own_side b l :
  placed b -> one_piece_per_square b -> l ∈ pieces b ->
  is_attacked b (position (obj b l)) (color (obj b l)) = OK false.
Proof.
  intros Hp Hu Hl. unfold is_attacked.
  rewrite (is_attacked_loop_flat b _ _ (placed_by_color b _ Hp)).
  f_equal. apply not_true_iff_false. intros He.
  apply existsb_to_pos in He as (m & Hm & Hpos).
  apply list_elem_of_In, List.in_flat_map in Hm as (d & Hd & Hm).
  apply list_elem_of_In in Hd, Hm.
  apply (no_friendly_defender b (color (obj b l)) l d Hp Hu);
    [by apply by_color_elem | done |].
  pose proof (proj1 (by_color_elem _ _ _) Hd) as [Hdin _].
  unfold placed in Hp. rewrite Forall_forall in Hp.
  destruct (piece_moves_total b d (Hp d Hdin)) as [ms Hms].
  exists ms, m. rewrite (moves_of_OK _ _ _ Hms) in Hm. done.
Qed.

(** The pawn on e4 after 1. e4 d5. *)
Lemma is_attacked_not_by_own_side_witness :
  is_attacked after_e4_d5 (position (obj after_e4_d5 4%nat))
    (color (obj after_e4_d5 4%nat)) = OK false.
Proof.
  apply (is_attacked_not_by_own_side after_e4_d5 4%nat).
  - unfold placed. apply (bool_decide_unpack _). vm_compute. exact I.
  - unfold one_piece_per_square. apply (bool_decide_unpack _). vm_compute. exact I.
  - apply (bool_decide_unpack _). vm_compute. exact I.
Defined.

(** ** The FEN across an evaluation *)

Lemma fen_row_loop_ext b b' rank files fen_row empty_count :
  (forall pos, get_piece_at b' pos = get_piece_at b pos) ->
  (forall y pos, get_piece_at b pos = Some y ->
     type (obj b' y) = type (obj b y) /\ color (obj b' y) = color (obj b y)) ->
  fen_row_loop b' rank files fen_row empty_count =
  fen_row_loop b rank files fen_row empty_count.
Proof.
  intros Hget Hobj. revert fen_row empty_count.
  induction files as [|file rest IH]; intros fen_row empty_count; simpl; [done |].
  rewrite Hget. destruct (get_piece_at b (label file rank)) as [y|] eqn:Hy; [|done].
  destruct (Hobj y _ Hy) as [-> ->]. destruct (0 <? empty_count); apply IH.
Qed.

Lemma same_but_move_count_lookup b b' l pos :
  one_piece_per_square b -> same_but_move_count b b' l ->
  get_piece_at b' pos = get_piece_at b pos.
Proof.
  intros Hu [Hperm Hall]. rewrite Forall_forall in Hall.
  assert (one_piece_per_square b') as Hu'.
  { unfold one_piece_per_square in *.
    assert (List.map (fun y => position (obj b' y)) (pieces b') ≡ₚ
            List.map (fun y => position (obj b y)) (pieces b)) as Hmap.
    { rewrite (List.map_ext_in _ (fun y => position (obj b y)) (pieces b')).
      - by apply Permutation_map.
      - intros y Hy. apply list_elem_of_In in Hy. rewrite Hperm in Hy.
        by destruct (Hall y Hy) as (_ & _ & -> & _). }
    by rewrite Hmap. }
  destruct (get_piece_at b pos) as [y|] eqn:Hy.
  - apply (get_piece_at_iff _ _ _ Hu) in Hy as [Hin Hpos].
    apply (get_piece_at_iff _ _ _ Hu'). rewrite Hperm. split; [done |].
    by destruct (Hall y Hin) as (_ & _ & -> & _).
  - apply get_piece_at_None. intros y Hin. rewrite Hperm in Hin.
    destruct (Hall y Hin) as (_ & _ & -> & _).
    by apply (proj1 (get_piece_at_None b pos) Hy).
Qed.

(** X25. Evaluating a move with [get_move_evaluation] does not change
    what [get_position_fen] shows: on a board whose pieces stand on
    squares of the board, one per square, the FEN after the call is the
    FEN before it, for every move from the square of a piece to another
    square of the board. *)
Theorem get_move_evaluation_keeps_fen b f t l :
  placed b -> one_piece_per_square b ->
  get_piece_at b f = Some l -> f <> t -> is_valid_position t = true ->
  get_position_fen (fst (get_move_evaluation b f t)) = get_position_fen b.
Proof.
  intros Hp Hu Hl Hne Ht.
  destruct (get_move_evaluation_normal b f t l Hp Hu Hl Hne Ht) as (r & _ & _ & Hobj).
  assert (same_but_move_count b (fst (get_move_evaluation b f t)) l) as Hsame.
  { destruct (get_move_evaluation_normal b f t l Hp Hu Hl Hne Ht)
      as (r' & Hr & Hps & _).
    pose proof (move_piece_mover_stays b f t l Hu Hl Hne) as Hl1.
    destruct (move_piece_Some b f t l Hl) as (_ & Hps1 & _).
    unfold same_but_move_count. split.
    - rewrite Hps. rewrite Hps1 in *.
      destruct (get_piece_at b t) as [x|] eqn:Hx.
      + destruct (get_piece_at_Some _ _ _ Hx) as [Hxin _].
        rewrite (remove_first_Permutation x (pieces b) Hxin) at 2.
        rewrite (remove_first_Permutation l (remove_first x (pieces b)) Hl1) at 2.
        rewrite Permutation_app_comm. simpl. apply perm_swap.
      + rewrite (remove_first_Permutation l (pieces b) Hl1) at 2.
        rewrite app_nil_r. by rewrite Permutation_app_comm.
    - apply Forall_forall. intros y Hy. rewrite Hobj.
      destruct (decide (y = l)) as [-> | Hyl].
      + rewrite bool_decide_eq_true_2 by done. by destruct (obj b l).
      + rewrite bool_decide_eq_false_2 by done. repeat split; lia. }
  unfold get_position_fen, fen_rows. f_equal.
  apply List.map_ext. intros rank. unfold fen_row_of.
  rewrite (fen_row_loop_ext b (fst (get_move_evaluation b f t)) rank FILES "" 0);
    [done | intros pos; by eapply same_but_move_count_lookup |].
  intros y pos Hy. rewrite Hobj. destruct (decide (y = l)); [by subst | done].
Qed.

(** The capture e4xd5 after 1. e4 d5. *)
Lemma get_move_evaluation_keeps_fen_witness :
  get_position_fen (fst (get_move_evaluation after_e4_d5 "e4" "d5")) =
  get_position_fen after_e4_d5.
Proof.
  apply (get_move_evaluation_keeps_fen after_e4_d5 "e4" "d5" 4%nat).
  - unfold placed. apply (bool_decide_unpack _). vm_compute. exact I.
  - unfold one_piece_per_square. apply (bool_decide_unpack _). vm_compute. exact I.
  - vm_compute. reflexivity.
  - discriminate.
  - vm_compute. reflexivity.
Defined.
